(** * Snake.py: the grid game driven by hand gestures

    A shallow embedding of [Program/Snake.py]: the [SnakeGame] class
    ([reset], [new_food], [update], [draw]), the clamp of the speed in
    [process_hands], the gesture step of [main] that turns two consecutive
    hand positions into a direction, and one iteration of the main loop.  Python integers are [Z], tuples of two integers are
    pairs, the snake body is a list with the head first.

    The [random] module is a sequence of raw draws read through a cursor;
    [while True] in [new_food] is a loop with fuel.  A call ends in a
    value, in a Python exception, or runs out of fuel. *)

From Stdlib Require Import ZArith List Bool Lia.
From Stdlib Require String DecimalString.
Import ListNotations.
Import String.StringSyntax.
Delimit Scope string_scope with string.
Open Scope Z_scope.

(** ** Outcomes and the effect monad *)

Inductive exn : Type :=
| ValueError   (* random.randint on an empty range *)
| IndexError.  (* self.snake[0] on an empty list *)

Inductive result (A : Type) : Type :=
| Done (a : A)
| Raised (e : exn)
| OutOfFuel.

Arguments Done {A} a.
Arguments Raised {A} e.
Arguments OutOfFuel {A}.

(** A computation reads the cursor into the draws and hands back the new
    cursor with its value. *)
Definition M (A : Type) : Type := nat -> result (A * nat).

Definition ret {A} (a : A) : M A := fun k => Done (a, k).

Definition raise {A} (e : exn) : M A := fun _ => Raised e.

Definition bind {A B} (m : M A) (f : A -> M B) : M B :=
  fun k =>
    match m k with
    | Done (a, k') => f a k'
    | Raised e => Raised e
    | OutOfFuel => OutOfFuel
    end.

Notation "x <- m ;; f" := (bind m (fun x => f))
  (at level 61, m at next level, right associativity).

(** ** Cells *)

Definition Cell : Type := (Z * Z)%type.

(** Tuple equality [a == b]. *)
Definition cell_eqb (a b : Cell) : bool :=
  (fst a =? fst b) && (snd a =? snd b).

(** List membership [c in l]. *)
Fixpoint mem (c : Cell) (l : list Cell) : bool :=
  match l with
  | [] => false
  | x :: l' => cell_eqb c x || mem c l'
  end.

(** ** Game parameters *)

Definition GRID_SIZE : Z := 20.
Definition MIN_SPEED : Z := 5.
Definition MAX_SPEED : Z := 20.

(** The displacement threshold of the gesture step, in pixels. *)
Definition THRESHOLD : Z := 20.

Record SnakeGame : Type := mkGame {
  snake : list Cell;
  direction : Cell;
  food : Cell;
  score : Z;
  game_over : bool;
  prev_hand_pos : option Cell
}.

Definition set_game_over (b : bool) (s : SnakeGame) : SnakeGame :=
  mkGame (snake s) (direction s) (food s) (score s) b (prev_hand_pos s).

Definition set_direction (d : Cell) (s : SnakeGame) : SnakeGame :=
  mkGame (snake s) d (food s) (score s) (game_over s) (prev_hand_pos s).

Definition set_prev_hand_pos (p : option Cell) (s : SnakeGame) : SnakeGame :=
  mkGame (snake s) (direction s) (food s) (score s) (game_over s) p.

(** ** The gesture step of [main] (lines 146-161) *)

(** The candidate [new_dir], when the displacement is large enough. *)
Definition classify (dx dy : Z) : option Cell :=
  if (Z.abs dx >? THRESHOLD) || (Z.abs dy >? THRESHOLD) then
    if Z.abs dx >? Z.abs dy
    then Some (if dx >? 0 then 1 else -1, 0)
    else Some (0, if dy >? 0 then 1 else -1)
  else None.

(** The guarded assignment [game.direction = new_dir]. *)
Definition steer (cur new_dir : Cell) : Cell :=
  if negb (fst new_dir =? - fst cur) || negb (snd new_dir =? - snd cur)
  then new_dir
  else cur.

(** The body of [if hand_pos:] for a detected hand at [hand_pos]. *)
Definition on_hand (hand_pos : Cell) (s : SnakeGame) : SnakeGame :=
  let s1 :=
    match prev_hand_pos s with
    | Some prev =>
        let dx := fst hand_pos - fst prev in
        let dy := snd hand_pos - snd prev in
        match classify dx dy with
        | Some new_dir => set_direction (steer (direction s) new_dir) s
        | None => s
        end
    | None => s
    end in
  set_prev_hand_pos (Some hand_pos) s1.

(** The four unit vectors, and the value [reset] gives the direction. *)
Definition cardinal (d : Cell) : Prop :=
  d = (1, 0) \/ d = (-1, 0) \/ d = (0, 1) \/ d = (0, -1).

Definition neg (d : Cell) : Cell := (- fst d, - snd d).

(** Draws that make [new_food] propose the cell [c] again and again. *)
Definition draws_of (c : Cell) : nat -> Z :=
  fun n => if Nat.even n then fst c else snd c.

(** The classifier in the words of its description: a candidate exactly
    when the displacement on the dominant axis exceeds the threshold, the
    unit vector along that axis signed like the displacement. *)
Definition dominant_candidate (dx dy : Z) : option Cell :=
  if Z.max (Z.abs dx) (Z.abs dy) >? THRESHOLD then
    Some (if Z.abs dx >? Z.abs dy then (Z.sgn dx, 0) else (0, Z.sgn dy))
  else None.

(** Draws that are all zero: [new_food] proposes the corner cell. *)
Definition zero_draws : nat -> Z := fun _ => 0.

(** Draws that propose (17, 12) twice, then (3, 4), then the corner. *)
Definition sample_draws : nat -> Z :=
  fun n => nth n [17; 12; 17; 12; 3; 4] 0.

(** Sample games on the 640 by 480 frame (a grid of 32 by 24 cells). *)

(** A new game when the draws are all zero. *)
Definition start_game : SnakeGame :=
  mkGame [(16, 12)] (0, 0) (0, 0) 0 false None.

(** The head one step left of the food, moving right. *)
Definition facing_food : SnakeGame :=
  mkGame [(16, 12); (15, 12)] (1, 0) (17, 12) 1 false None.

(** A snake coiled in a square: the cell right of the head is its last. *)
Definition coiled : SnakeGame :=
  mkGame [(5, 5); (5, 6); (6, 6); (6, 5)] (0, -1) (0, 0) 3 false None.

(** A finished game with a hand seen before. *)
Definition finished : SnakeGame :=
  mkGame [(31, 4); (30, 4)] (1, 0) (9, 9) 1 true (Some (100, 120)).

(** The game of [sample_draws] after its first tick, onto the food. *)
Definition after_meal : SnakeGame :=
  mkGame [(17, 12); (16, 12)] (0, 0) (3, 4) 1 false None.

(** The head on the last column, moving right. *)
Definition at_edge : SnakeGame :=
  mkGame [(31, 4); (30, 4)] (1, 0) (9, 9) 1 false None.

(** Two cells moving right, a hand seen before. *)
Definition moving_right : SnakeGame :=
  mkGame [(16, 12); (15, 12)] (1, 0) (3, 4) 1 false (Some (100, 120)).

(** The new game of a frame of 40 by 20 pixels, a grid of two cells,
    turned towards the food. *)
Definition two_cells : SnakeGame :=
  mkGame [(1, 0)] (-1, 0) (0, 0) 0 false None.

(** The same game as it is built, the direction not yet set. *)
Definition two_cells_start : SnakeGame :=
  mkGame [(1, 0)] (0, 0) (0, 0) 0 false None.

(** ** Speed, drawing and the shape of the snake *)

(** Line 123 of [process_hands]: the speed computed from the hand span,
    an integer by then, is brought into the speed range. *)
Definition clamp_speed (speed : Z) : Z :=
  Z.max MIN_SPEED (Z.min speed MAX_SPEED).

(** Colours, as (blue, green, red). *)
Definition Color : Type := (Z * Z * Z)%type.

Definition BACKGROUND : Color := (0, 0, 0).
Definition SNAKE_COLOR : Color := (0, 255, 0).
Definition FOOD_COLOR : Color := (0, 0, 255).
Definition TEXT_COLOR : Color := (255, 255, 255).

Inductive Font : Type := FONT_HERSHEY_SIMPLEX.

(** What [draw] asks of the frame, call by call. *)
Inductive DrawCmd : Type :=
| Fill (color : Color)
| Rectangle (pt1 pt2 : Cell) (color : Color) (thickness : Z)
| Circle (center : Cell) (radius : Z) (color : Color) (thickness : Z)
| PutText (text : String.string) (org : Cell) (font : Font) (fontScale : Z)
          (color : Color) (thickness : Z).


(** An integer in an f-string. *)
Definition str (n : Z) : String.string :=
  DecimalString.NilZero.string_of_int (Z.to_int n).

(** Two cells one step apart along an axis. *)
Definition adjacent (a b : Cell) : Prop :=
  Z.abs (fst a - fst b) + Z.abs (snd a - snd b) = 1.

(** Every cell of the body is one step from the next. *)
Fixpoint contiguous (l : list Cell) : Prop :=
  match l with
  | a :: l' =>
      match l' with
      | b :: _ => adjacent a b /\ contiguous l'
      | [] => True
      end
  | [] => True
  end.

(** The gesture step over the hand positions of successive frames. *)
Definition run_hands (hps : list Cell) (s : SnakeGame) : SnakeGame :=
  fold_left (fun g hand_pos => on_hand hand_pos g) hps s.

(** Each position within the threshold of the one before it, on both
    axes. *)
Fixpoint small_steps (prev : Cell) (hps : list Cell) : Prop :=
  match hps with
  | [] => True
  | hand_pos :: rest =>
      Z.abs (fst hand_pos - fst prev) <= THRESHOLD
      /\ Z.abs (snd hand_pos - snd prev) <= THRESHOLD
      /\ small_steps hand_pos rest
  end.

Section Game.

(** The frame size the camera reports, and the draws of [random]. *)
Variables WIDTH HEIGHT : Z.
Variable draws : nat -> Z.

Definition GRID_WIDTH : Z := WIDTH / GRID_SIZE.
Definition GRID_HEIGHT : Z := HEIGHT / GRID_SIZE.

(** [random.randint(a, b)]: some integer of [a..b], the next draw reduced
    into the range; an empty range raises. *)
Definition randint (a b : Z) : M Z :=
  fun k =>
    if a <=? b
    then Done (a + draws k mod (b - a + 1), S k)
    else Raised ValueError.

Definition in_grid (c : Cell) : Prop :=
  0 <= fst c < GRID_WIDTH /\ 0 <= snd c < GRID_HEIGHT.

(** [SnakeGame.new_food], reading [self.snake]. *)
Fixpoint new_food (fuel : nat) (body : list Cell) : M Cell :=
  match fuel with
  | O => fun _ => OutOfFuel
  | S fuel' =>
      x <- randint 0 (GRID_WIDTH - 1) ;;
      y <- randint 0 (GRID_HEIGHT - 1) ;;
      if negb (mem (x, y) body) then ret (x, y) else new_food fuel' body
  end.

(** The cell proposed by the [i]-th round of the loop of [new_food]
    entered at cursor [k], on a grid that has cells. *)
Definition candidate (k i : nat) : Cell :=
  (draws (k + 2 * i)%nat mod GRID_WIDTH,
   draws (S (k + 2 * i))%nat mod GRID_HEIGHT).

(** [SnakeGame.reset]: five attributes are assigned, [prev_hand_pos] is
    not among them. *)
Definition reset (fuel : nat) (s : SnakeGame) : M SnakeGame :=
  let body := [(GRID_WIDTH / 2, GRID_HEIGHT / 2)] in
  f <- new_food fuel body ;;
  ret (mkGame body (0, 0) f 0 false (prev_hand_pos s)).

(** [SnakeGame.__init__]: [reset] on the fresh object, then
    [prev_hand_pos = None]. *)
Definition blank : SnakeGame := mkGame [] (0, 0) (0, 0) 0 false None.

Definition init (fuel : nat) : M SnakeGame :=
  s <- reset fuel blank ;;
  ret (set_prev_hand_pos None s).

(** The collision test of [update]. *)
Definition collides (new_head : Cell) (body : list Cell) : bool :=
  mem new_head body
  || (fst new_head <? 0) || (fst new_head >=? GRID_WIDTH)
  || (snd new_head <? 0) || (snd new_head >=? GRID_HEIGHT).

(** [SnakeGame.update]. *)
Definition update (fuel : nat) (d : Cell) (s : SnakeGame) : M SnakeGame :=
  if game_over s then ret s
  else
    match snake s with
    | [] => raise IndexError
    | head :: _ =>
        let new_head := (fst head + fst d, snd head + snd d) in
        if collides new_head (snake s) then ret (set_game_over true s)
        else
          let body := new_head :: snake s in
          if cell_eqb new_head (food s) then
            f <- new_food fuel body ;;
            ret (mkGame body (direction s) f (score s + 1)
                        (game_over s) (prev_hand_pos s))
          else
            ret (mkGame (removelast body) (direction s) (food s) (score s)
                        (game_over s) (prev_hand_pos s))
    end.

(** ** One iteration of the loop of [main] *)

Inductive Key : Type := KeyQ | KeyR | KeyOther.

(** What one iteration takes from outside: whether a frame was read, the
    hand position and speed of [process_hands] when a hand is seen, whether
    the tick is due by the clock, and the key pressed. *)
Record Frame : Type := mkFrame {
  frame_ok : bool;
  hand : option (Cell * Z);
  tick_due : bool;
  key : Key
}.

Record Loop : Type := mkLoop {
  game : SnakeGame;
  current_speed : Z
}.

(** [None] is [break]. *)
Definition main_iter (fuel : nat) (fr : Frame) (l : Loop) : M (option Loop) :=
  if negb (frame_ok fr) then ret None
  else
    let speed := match hand fr with
                 | Some (_, sp) => sp
                 | None => current_speed l
                 end in
    let g1 := match hand fr with
              | Some (hand_pos, _) => on_hand hand_pos (game l)
              | None => game l
              end in
    g2 <- (if tick_due fr then update fuel (direction g1) g1 else ret g1) ;;
    match key fr with
    | KeyQ => ret None
    | KeyR => g3 <- reset fuel g2 ;; ret (Some (mkLoop g3 MIN_SPEED))
    | KeyOther => ret (Some (mkLoop g2 speed))
    end.

(** ** Reachable states *)

(** The operations that change a game: [update] with any argument,
    [reset], and the gesture step on a detected hand. *)
Inductive op : Type :=
| OpUpdate (d : Cell)
| OpReset
| OpHand (hand_pos : Cell).

Definition run_op (fuel : nat) (o : op) (s : SnakeGame) : M SnakeGame :=
  match o with
  | OpUpdate d => update fuel d s
  | OpReset => reset fuel s
  | OpHand hand_pos => ret (on_hand hand_pos s)
  end.

Inductive reachable : SnakeGame -> Prop :=
| reach_init fuel k s k' :
    init fuel k = Done (s, k') -> reachable s
| reach_step fuel o k s s' k' :
    reachable s -> run_op fuel o s k = Done (s', k') -> reachable s'.

(** States reached by [update] and [reset] alone. *)
Inductive game_reachable : SnakeGame -> Prop :=
| greach_init fuel k s k' :
    init fuel k = Done (s, k') -> game_reachable s
| greach_update fuel d k s s' k' :
    game_reachable s -> update fuel d s k = Done (s', k') -> game_reachable s'
| greach_reset fuel k s s' k' :
    game_reachable s -> reset fuel s k = Done (s', k') -> game_reachable s'.


(** ** Drawing, runs of operations and the states of the loop *)

(** [SnakeGame.draw]: the calls made on the frame, in order. *)
Definition draw (s : SnakeGame) (speed : Z) : list DrawCmd :=
  Fill BACKGROUND
  :: map (fun segment =>
            let x := fst segment * GRID_SIZE in
            let y := snd segment * GRID_SIZE in
            Rectangle (x, y) (x + GRID_SIZE, y + GRID_SIZE) SNAKE_COLOR (-1))
         (snake s)
  ++ (let fx := fst (food s) * GRID_SIZE in
      let fy := snd (food s) * GRID_SIZE in
      [Circle (fx + GRID_SIZE / 2, fy + GRID_SIZE / 2) (GRID_SIZE / 2)
              FOOD_COLOR (-1);
       PutText (String.append "Score: " (str (score s))) (10, 30)
               FONT_HERSHEY_SIMPLEX 1 TEXT_COLOR 2;
       PutText (String.append "Speed: " (str speed)) (10, 60)
               FONT_HERSHEY_SIMPLEX 1 TEXT_COLOR 2])
  ++ (if game_over s
      then [PutText "Game Over! (R to restart)"%string (WIDTH / 4, HEIGHT / 2)
                    FONT_HERSHEY_SIMPLEX 1 TEXT_COLOR 2]
      else []).


(** Operations one after the other. *)
Fixpoint run_ops (fuel : nat) (ops : list op) (s : SnakeGame) : M SnakeGame :=
  match ops with
  | [] => ret s
  | o :: rest => s' <- run_op fuel o s ;; run_ops fuel rest s'
  end.

Definition is_reset (o : op) : bool :=
  match o with
  | OpReset => true
  | _ => false
  end.

(** A frame whose speed, when a hand is seen, left [process_hands]
    through its clamp. *)
Definition from_process_hands (fr : Frame) : Prop :=
  match hand fr with
  | Some (_, sp) => exists raw, sp = clamp_speed raw
  | None => True
  end.

(** The states of [main] at the top of its loop. *)
Inductive loop_reachable : Loop -> Prop :=
| loop_start fuel k g k' :
    init fuel k = Done (g, k') -> loop_reachable (mkLoop g MIN_SPEED)
| loop_next fuel fr k l l' k' :
    loop_reachable l -> from_process_hands fr ->
    main_iter fuel fr l k = Done (Some l', k') -> loop_reachable l'.

(** ** Basic facts *)

Lemma cell_eqb_eq (a b : Cell) : cell_eqb a b = true <-> a = b.
Proof.
  destruct a as [ax ay], b as [bx b_y]; unfold cell_eqb; simpl.
  rewrite andb_true_iff, !Z.eqb_eq. split.
  - intros [-> ->]; reflexivity.
  - intros E; injection E; auto.
Qed.

Lemma cell_eqb_refl (a : Cell) : cell_eqb a a = true.
Proof. apply cell_eqb_eq; reflexivity. Qed.

Lemma mem_In (c : Cell) (l : list Cell) : mem c l = true <-> In c l.
Proof.
  induction l as [|x l IH]; simpl.
  - split; [discriminate | tauto].
  - rewrite orb_true_iff, cell_eqb_eq, IH. split; intros [H|H]; auto.
Qed.

Lemma mem_false (c : Cell) (l : list Cell) : mem c l = false <-> ~ In c l.
Proof.
  rewrite <- mem_In. destruct (mem c l); split; congruence.
Qed.

Lemma bind_Done {A B} (m : M A) (f : A -> M B) k b k2 :
  bind m f k = Done (b, k2) ->
  exists a k1, m k = Done (a, k1) /\ f a k1 = Done (b, k2).
Proof.
  unfold bind. destruct (m k) as [[a k1]| |]; try discriminate.
  intros H; exists a, k1; auto.
Qed.

Lemma in_removelast (c : Cell) (l : list Cell) :
  In c (removelast l) -> In c l.
Proof.
  induction l as [|x l IH]; simpl; auto.
  destruct l as [|y l]; simpl in *; [tauto|].
  intros [H|H]; auto.
Qed.

Lemma NoDup_removelast (l : list Cell) : NoDup l -> NoDup (removelast l).
Proof.
  induction 1 as [|x l Hx Hl IH]; simpl; [constructor|].
  destruct l as [|y l]; [constructor|].
  constructor; auto. intros H; apply Hx, in_removelast, H.
Qed.

Lemma removelast_cons_cons (x y : Cell) (l : list Cell) :
  removelast (x :: y :: l) = x :: removelast (y :: l).
Proof. reflexivity. Qed.

Lemma length_removelast_cons (x : Cell) (l : list Cell) :
  length (removelast (x :: l)) = length l.
Proof.
  revert x; induction l as [|y l IH]; intros x; [reflexivity|].
  rewrite removelast_cons_cons. cbn [length]. f_equal. apply IH.
Qed.

Lemma In_last_cons (x : Cell) (l : list Cell) (d : Cell) :
  In (last (x :: l) d) (x :: l).
Proof.
  revert x; induction l as [|y l IH]; intros x.
  - left; reflexivity.
  - right. change (last (x :: y :: l) d) with (last (y :: l) d). apply IH.
Qed.

Ltac inv_bind H :=
  let a := fresh "a" in
  let k1 := fresh "k" in
  let H1 := fresh H in
  apply bind_Done in H; destruct H as (a & k1 & H1 & H).

Ltac inv_ret H := unfold ret in H; injection H as <- <-.

(** ** [randint] and [new_food] *)

Lemma randint_Done a b k v k' :
  randint a b k = Done (v, k') -> a <= v <= b /\ k' = S k.
Proof.
  unfold randint. destruct (a <=? b) eqn:E; [|discriminate].
  apply Z.leb_le in E. intros H; injection H as <- <-.
  split; [|reflexivity].
  pose proof (Z.mod_pos_bound (draws k) (b - a + 1)). lia.
Qed.

Lemma new_food_sound fuel body k f k' :
  new_food fuel body k = Done (f, k') -> in_grid f /\ ~ In f body.
Proof.
  revert k; induction fuel as [|fuel IH]; intros k H; simpl in H.
  - discriminate.
  - inv_bind H. inv_bind H.
    apply randint_Done in H0, H1.
    destruct (mem (a, a0) body) eqn:E; simpl in H.
    + eapply IH; eauto.
    + inv_ret H. split; [|apply mem_false, E].
      unfold in_grid; simpl. lia.
Qed.

(** ** The loop of [new_food] *)

Lemma randint_grid n k :
  0 < n -> randint 0 (n - 1) k = Done (draws k mod n, S k).
Proof.
  intros Hn. unfold randint.
  destruct (Z.leb_spec 0 (n - 1)); [|lia].
  replace (n - 1 - 0 + 1) with n by lia. reflexivity.
Qed.

(** One round of the loop on a grid that has cells. *)
Lemma new_food_round fuel body k :
  0 < GRID_WIDTH -> 0 < GRID_HEIGHT ->
  new_food (S fuel) body k =
  if negb (mem (candidate k 0) body)
  then Done (candidate k 0, S (S k))
  else new_food fuel body (S (S k)).
Proof.
  intros Hw Hh. cbn [new_food]. unfold bind at 1.
  rewrite (randint_grid _ _ Hw). unfold bind at 1.
  rewrite (randint_grid _ _ Hh).
  unfold candidate. rewrite Nat.mul_0_r, Nat.add_0_r.
  destruct (negb (mem _ body)); reflexivity.
Qed.

Lemma candidate_shift k i : candidate (S (S k)) i = candidate k (S i).
Proof.
  unfold candidate.
  replace (S (S k) + 2 * i)%nat with (k + 2 * S i)%nat by lia.
  reflexivity.
Qed.

Lemma candidate_in_grid k i :
  0 < GRID_WIDTH -> 0 < GRID_HEIGHT -> in_grid (candidate k i).
Proof.
  intros Hw Hh. unfold in_grid, candidate; simpl.
  split; apply Z.mod_pos_bound; assumption.
Qed.

(** If round [n] proposes a free cell, [n + 1] rounds are enough. *)
Lemma new_food_returns n :
  0 < GRID_WIDTH -> 0 < GRID_HEIGHT ->
  forall body k,
    ~ In (candidate k n) body ->
    exists f k', new_food (S n) body k = Done (f, k').
Proof.
  intros Hw Hh. induction n as [|n IH]; intros body k Hfree;
    rewrite new_food_round by assumption;
    destruct (mem (candidate k 0) body) eqn:E; simpl; eauto.
  - apply mem_In in E. contradiction.
  - apply IH. rewrite candidate_shift. exact Hfree.
Qed.

(** More fuel does not change a returned cell. *)
Lemma new_food_fuel_mono fuel fuel' body k r :
  (fuel <= fuel')%nat ->
  new_food fuel body k = Done r -> new_food fuel' body k = Done r.
Proof.
  revert fuel' k. induction fuel as [|fuel IH]; intros fuel' k Hle H.
  - discriminate.
  - destruct fuel' as [|fuel']; [lia|].
    cbn [new_food] in *. unfold bind in *.
    destruct (randint 0 (GRID_WIDTH - 1) k) as [[x k1]| |]; try discriminate.
    destruct (randint 0 (GRID_HEIGHT - 1) k1) as [[y k2]| |];
      try discriminate.
    destruct (negb (mem (x, y) body)); [assumption|].
    apply IH; [lia | assumption].
Qed.

(** On a grid whose every cell is on the body the call never returns. *)
Lemma new_food_never body :
  (forall c, in_grid c -> In c body) ->
  forall fuel k r, new_food fuel body k <> Done r.
Proof.
  intros Hfull fuel k [f k'] H. apply new_food_sound in H.
  destruct H as [Hg Hf]. apply Hf, Hfull, Hg.
Qed.

(** With cells to propose, every round fails and the fuel runs out. *)
Lemma new_food_full body :
  0 < GRID_WIDTH -> 0 < GRID_HEIGHT ->
  (forall c, in_grid c -> In c body) ->
  forall fuel k, new_food fuel body k = OutOfFuel.
Proof.
  intros Hw Hh Hfull. induction fuel as [|fuel IH]; intros k.
  - reflexivity.
  - rewrite new_food_round by assumption.
    assert (E : mem (candidate k 0) body = true).
    { apply mem_In, Hfull, candidate_in_grid; assumption. }
    rewrite E. simpl. apply IH.
Qed.

(** Fuel above a round that proposes a free cell is enough. *)
Lemma new_food_runs n fuel body k :
  0 < GRID_WIDTH -> 0 < GRID_HEIGHT ->
  ~ In (candidate k n) body -> (n < fuel)%nat ->
  exists f k',
    new_food fuel body k = Done (f, k') /\ in_grid f /\ ~ In f body.
Proof.
  intros Hw Hh Hn Hlt.
  destruct (new_food_returns n Hw Hh body k Hn) as (f & k' & E).
  assert (E' : new_food fuel body k = Done (f, k')).
  { apply (new_food_fuel_mono (S n)); [lia | exact E]. }
  exists f, k'. split; [exact E'|]. eapply new_food_sound, E'.
Qed.

Lemma set_game_over_fields b s :
  game_over (set_game_over b s) = b
  /\ snake (set_game_over b s) = snake s
  /\ food (set_game_over b s) = food s
  /\ score (set_game_over b s) = score s
  /\ direction (set_game_over b s) = direction s
  /\ prev_hand_pos (set_game_over b s) = prev_hand_pos s.
Proof. repeat split. Qed.

(** ** [update], case by case *)

Lemma update_over fuel d s k :
  game_over s = true -> update fuel d s k = Done (s, k).
Proof. intros H; unfold update; rewrite H; reflexivity. Qed.

Lemma update_collide fuel d s k head body :
  game_over s = false -> snake s = head :: body ->
  collides (fst head + fst d, snd head + snd d) (snake s) = true ->
  update fuel d s k = Done (set_game_over true s, k).
Proof.
  intros Hg Hs Hc; unfold update; rewrite Hg, Hs; rewrite Hs in Hc.
  cbv zeta. rewrite Hc. reflexivity.
Qed.

Lemma update_eat fuel d s k head body f k' :
  game_over s = false -> snake s = head :: body ->
  let new_head := (fst head + fst d, snd head + snd d) in
  collides new_head (snake s) = false ->
  new_head = food s ->
  new_food fuel (new_head :: snake s) k = Done (f, k') ->
  update fuel d s k =
  Done (mkGame (new_head :: snake s) (direction s) f (score s + 1)
               false (prev_hand_pos s), k').
Proof.
  intros Hg Hs new_head Hc Hf Hn; unfold update; rewrite Hg, Hs.
  rewrite Hs in Hc, Hn. fold new_head. cbv zeta. rewrite Hc.
  assert (E : cell_eqb new_head (food s) = true) by (apply cell_eqb_eq, Hf).
  rewrite E. unfold bind. rewrite Hn. reflexivity.
Qed.

Lemma update_move fuel d s k head body :
  game_over s = false -> snake s = head :: body ->
  let new_head := (fst head + fst d, snd head + snd d) in
  collides new_head (snake s) = false ->
  new_head <> food s ->
  update fuel d s k =
  Done (mkGame (removelast (new_head :: snake s)) (direction s) (food s)
               (score s) false (prev_hand_pos s), k).
Proof.
  intros Hg Hs new_head Hc Hf; unfold update; rewrite Hg, Hs.
  rewrite Hs in Hc. fold new_head. cbv zeta. rewrite Hc.
  destruct (cell_eqb new_head (food s)) eqn:E.
  - apply cell_eqb_eq in E. contradiction.
  - reflexivity.
Qed.

(** What a returning [update] did. *)
Lemma update_Done fuel d s k s' k' :
  update fuel d s k = Done (s', k') ->
  (game_over s = true /\ s' = s)
  \/ (game_over s = false /\ exists head body,
        snake s = head :: body /\
        let new_head := (fst head + fst d, snd head + snd d) in
        (collides new_head (snake s) = true /\ s' = set_game_over true s)
        \/ (collides new_head (snake s) = false /\ new_head = food s /\
            exists f, new_food fuel (new_head :: snake s) k = Done (f, k') /\
              s' = mkGame (new_head :: snake s) (direction s) f (score s + 1)
                          false (prev_hand_pos s))
        \/ (collides new_head (snake s) = false /\ new_head <> food s /\
            s' = mkGame (removelast (new_head :: snake s)) (direction s)
                        (food s) (score s) false (prev_hand_pos s))).
Proof.
  intros H. destruct (game_over s) eqn:Hg.
  - left. rewrite update_over in H by assumption. injection H as <- <-. auto.
  - right. split; [reflexivity|].
    destruct (snake s) as [|head body] eqn:Hs.
    + unfold update in H. rewrite Hg, Hs in H. discriminate.
    + exists head, body. split; [reflexivity|]. cbv zeta.
      set (new_head := (fst head + fst d, snd head + snd d)).
      rewrite <- Hs.
      destruct (collides new_head (snake s)) eqn:Hc.
      * left. rewrite (update_collide fuel d s k head body) in H by assumption.
        injection H as <- <-. auto.
      * right.
        destruct (cell_eqb new_head (food s)) eqn:E.
        -- left. pose proof (proj1 (cell_eqb_eq _ _) E) as Ef.
           do 2 (split; [first [reflexivity | assumption]|]).
           destruct (new_food fuel (new_head :: snake s) k) as [[f k1]| |] eqn:Hn.
           ++ rewrite (update_eat fuel d s k head body f k1) in H by assumption.
              injection H as <- <-. exists f. auto.
           ++ unfold update in H. rewrite Hg, Hs in H. cbv zeta in H.
              fold new_head in H. rewrite <- Hs in H. rewrite Hc, E in H.
              unfold bind in H. rewrite Hn in H. discriminate.
           ++ unfold update in H. rewrite Hg, Hs in H. cbv zeta in H.
              fold new_head in H. rewrite <- Hs in H. rewrite Hc, E in H.
              unfold bind in H. rewrite Hn in H. discriminate.
        -- right. assert (Hne : new_head <> food s).
           { intros E'. apply cell_eqb_eq in E'. congruence. }
           rewrite (update_move fuel d s k head body) in H by assumption.
           injection H as <- <-. auto.
Qed.

Lemma collides_In new_head body :
  In new_head body -> collides new_head body = true.
Proof.
  intros H; unfold collides. apply mem_In in H. rewrite H. reflexivity.
Qed.

Lemma collides_false new_head body :
  collides new_head body = false -> ~ In new_head body /\ in_grid new_head.
Proof.
  unfold collides, in_grid. rewrite !orb_false_iff.
  intros [[[[Hm H1] H2] H3] H4]. split.
  - apply mem_false, Hm.
  - apply Z.ltb_ge in H1, H3. rewrite Z.geb_leb in H2, H4.
    apply Z.leb_gt in H2, H4. lia.
Qed.

(** ** The tick *)


(** C9. The collision test looks at the whole body before the move: a
    new head on any cell of it ends the game with snake, food and score
    as they were.  So does the zero direction (the head is on the body),
    so does a move onto the last cell, and so does the first tick taken
    with the direction a new game starts with. *)
Theorem update_collision_pre_move_body fuel d s k head body :
  game_over s = false -> snake s = head :: body ->
  let new_head := (fst head + fst d, snd head + snd d) in
  let hit := update fuel d s k = Done (set_game_over true s, k) in
  let s' := set_game_over true s in
  (In new_head (snake s) -> hit)
  /\ (d = (0, 0) -> hit)
  /\ (new_head = last (snake s) head -> hit)
  /\ (game_over s' = true /\ snake s' = snake s /\
      food s' = food s /\ score s' = score s)
  /\ (forall fuel0 k0 s0 k1 fuel1,
        init fuel0 k0 = Done (s0, k1) ->
        update fuel1 (direction s0) s0 k1 = Done (set_game_over true s0, k1)).
Proof.
  intros Hg Hs new_head hit s'.
  assert (Hin : In new_head (snake s) -> hit).
  { intros Hi. unfold hit. eapply update_collide; eauto.
    apply collides_In, Hi. }
  repeat split.
  - exact Hin.
  - intros ->. apply Hin. subst new_head. rewrite Hs. left.
    destruct head; simpl. f_equal; lia.
  - intros E. apply Hin. rewrite E, Hs. apply In_last_cons.
  - intros fuel0 k0 s0 k1 fuel1 H0. unfold init in H0. inv_bind H0.
    inv_ret H0. unfold reset in H1. inv_bind H1. inv_ret H1.
    eapply update_collide; try reflexivity.
    apply collides_In. simpl. left. f_equal; lia.
Qed.

(** ** What [reset], [__init__] and the gesture step return *)

Lemma reset_Done fuel s k s' k' :
  reset fuel s k = Done (s', k') ->
  exists f,
    new_food fuel [(GRID_WIDTH / 2, GRID_HEIGHT / 2)] k = Done (f, k') /\
    s' = mkGame [(GRID_WIDTH / 2, GRID_HEIGHT / 2)] (0, 0) f 0 false
                (prev_hand_pos s).
Proof.
  intros H. unfold reset in H. inv_bind H. inv_ret H. eauto.
Qed.

Lemma init_Done fuel k s k' :
  init fuel k = Done (s, k') ->
  exists f,
    new_food fuel [(GRID_WIDTH / 2, GRID_HEIGHT / 2)] k = Done (f, k') /\
    s = mkGame [(GRID_WIDTH / 2, GRID_HEIGHT / 2)] (0, 0) f 0 false None.
Proof.
  intros H. unfold init in H. inv_bind H. inv_ret H.
  apply reset_Done in H0. destruct H0 as (f & Hn & ->). eauto.
Qed.

Lemma on_hand_fields hand_pos s :
  snake (on_hand hand_pos s) = snake s /\
  food (on_hand hand_pos s) = food s /\
  score (on_hand hand_pos s) = score s /\
  game_over (on_hand hand_pos s) = game_over s /\
  prev_hand_pos (on_hand hand_pos s) = Some hand_pos.
Proof.
  unfold on_hand. destruct (prev_hand_pos s) as [prev|]; [|repeat split].
  destruct (classify _ _); repeat split.
Qed.

Lemma classify_cardinal dx dy c : classify dx dy = Some c -> cardinal c.
Proof.
  unfold classify, cardinal.
  destruct (_ || _); [|discriminate].
  destruct (Z.abs dx >? Z.abs dy).
  - destruct (dx >? 0); intros H; injection H as <-; auto.
  - destruct (dy >? 0); intros H; injection H as <-; auto.
Qed.

Lemma steer_cases cur new_dir :
  steer cur new_dir = cur \/ steer cur new_dir = new_dir.
Proof. unfold steer. destruct (_ || _); auto. Qed.

Lemma on_hand_direction hand_pos s :
  direction (on_hand hand_pos s) = direction s
  \/ cardinal (direction (on_hand hand_pos s)).
Proof.
  unfold on_hand. destruct (prev_hand_pos s) as [prev|]; [|left; reflexivity].
  destruct (classify _ _) as [c|] eqn:E; [|left; reflexivity].
  cbn [direction set_prev_hand_pos set_direction].
  destruct (steer_cases (direction s) c) as [-> | ->]; [left; reflexivity|].
  right. eapply classify_cardinal, E.
Qed.

Lemma update_direction fuel d s k s' k' :
  update fuel d s k = Done (s', k') -> direction s' = direction s.
Proof.
  intros H. apply update_Done in H.
  destruct H as [[_ ->] | [_ (head & body & _ & H)]]; [reflexivity|].
  cbv zeta in H.
  destruct H as [[_ ->] | [(_ & _ & f & _ & ->) | (_ & _ & ->)]]; reflexivity.
Qed.

Lemma update_NoDup fuel d s k s' k' :
  update fuel d s k = Done (s', k') -> NoDup (snake s) -> NoDup (snake s').
Proof.
  intros H Hn. apply update_Done in H.
  destruct H as [[_ ->] | [_ (head & body & _ & H)]]; [assumption|].
  cbv zeta in H.
  destruct H as [[_ ->] | [(Hc & _ & f & _ & ->) | (Hc & _ & ->)]].
  - assumption.
  - apply collides_false in Hc. constructor; tauto.
  - apply collides_false in Hc. apply NoDup_removelast. constructor; tauto.
Qed.

(** ** Invariants of the reachable states *)

Lemma game_reachable_reachable s : game_reachable s -> reachable s.
Proof.
  induction 1.
  - eapply reach_init; eauto.
  - eapply (reach_step fuel (OpUpdate d)); eauto.
  - eapply (reach_step fuel OpReset); eauto.
Qed.

Lemma reachable_NoDup s : reachable s -> NoDup (snake s).
Proof.
  induction 1 as [fuel k s k' H | fuel o k s s' k' Hr IH H].
  - apply init_Done in H. destruct H as (f & _ & ->). simpl.
    constructor; [simpl; tauto | constructor].
  - destruct o as [d | | hand_pos]; simpl in H.
    + eapply update_NoDup; eauto.
    + apply reset_Done in H. destruct H as (f & _ & ->). simpl.
      constructor; [simpl; tauto | constructor].
    + inv_ret H. destruct (on_hand_fields hand_pos s) as [-> _]. assumption.
Qed.

Lemma reachable_nonempty s : reachable s -> snake s <> [].
Proof.
  induction 1 as [fuel k s k' H | fuel o k s s' k' Hr IH H].
  - apply init_Done in H. destruct H as (f & _ & ->). discriminate.
  - destruct o as [d | | hand_pos]; simpl in H.
    + apply update_Done in H.
      destruct H as [[_ ->] | [_ (head & body & Hs & H)]]; [assumption|].
      cbv zeta in H.
      destruct H as [[_ ->] | [(_ & _ & f & _ & ->) | (_ & _ & ->)]].
      * assumption.
      * discriminate.
      * rewrite Hs. cbn [snake]. rewrite removelast_cons_cons. discriminate.
    + apply reset_Done in H. destruct H as (f & _ & ->). discriminate.
    + inv_ret H. destruct (on_hand_fields hand_pos s) as [-> _]. assumption.
Qed.

(** C2. In every state reached from the initial one by [update] and
    [reset] in which [game_over] is false, the cells of the snake are
    pairwise distinct. *)
Theorem snake_cells_distinct s :
  game_reachable s -> game_over s = false -> NoDup (snake s).
Proof.
  intros H _. apply reachable_NoDup, game_reachable_reachable, H.
Qed.

(** C3. A cell returned by [new_food] lies in the grid and off the body
    it was given; so the food [reset] leaves, and the food [update]
    leaves when it scores, is a grid cell the snake does not occupy. *)
Theorem new_food_free_cell :
  (forall fuel body k f k',
      new_food fuel body k = Done (f, k') -> in_grid f /\ ~ In f body)
  /\ (forall fuel s k s' k',
        reset fuel s k = Done (s', k') ->
        in_grid (food s') /\ ~ In (food s') (snake s'))
  /\ (forall fuel d s k s' k',
        update fuel d s k = Done (s', k') -> score s' = score s + 1 ->
        in_grid (food s') /\ ~ In (food s') (snake s')).
Proof.
  repeat apply conj.
  - intros. eapply new_food_sound; eauto.
  - intros fuel s k s' k' H. apply reset_Done in H.
    destruct H as (f & Hn & ->). eapply new_food_sound; eauto.
  - intros fuel d s k s' k' H Hsc. apply update_Done in H.
    destruct H as [[_ ->] | [_ (head & body & _ & H)]]; [lia|].
    cbv zeta in H.
    destruct H as [[_ ->] | [(_ & _ & f & Hn & ->) | (_ & _ & ->)]].
    + simpl in Hsc; lia.
    + eapply new_food_sound; eauto.
    + simpl in Hsc; lia.
Qed.

(** C5, as the code has it. In every reachable state the direction is the
    zero vector [reset] assigns or one of the four unit vectors. *)
Theorem direction_zero_or_cardinal s :
  reachable s -> direction s = (0, 0) \/ cardinal (direction s).
Proof.
  induction 1 as [fuel k s k' H | fuel o k s s' k' Hr IH H].
  - apply init_Done in H. destruct H as (f & _ & ->). left; reflexivity.
  - destruct o as [d | | hand_pos]; simpl in H.
    + apply update_direction in H. rewrite H. exact IH.
    + apply reset_Done in H. destruct H as (f & _ & ->). left; reflexivity.
    + inv_ret H. destruct (on_hand_direction hand_pos s) as [-> | Hc]; auto.
Qed.

(** C4, as the code has it. After a returning [reset], from any state,
    the snake is the single centre cell, the direction is the zero vector,
    the score is 0, [game_over] is false and the food is the cell
    [new_food] returned for that snake, a free grid cell: the values a new
    game starts with.  [prev_hand_pos] keeps the value it had.  The call
    returns as soon as the fuel covers a round of [new_food] that proposes
    a cell off the centre. *)
Theorem reset_state fuel s k :
  (forall s' k',
      reset fuel s k = Done (s', k') ->
      snake s' = [(GRID_WIDTH / 2, GRID_HEIGHT / 2)]
      /\ direction s' = (0, 0)
      /\ score s' = 0
      /\ game_over s' = false
      /\ new_food fuel (snake s') k = Done (food s', k')
      /\ in_grid (food s') /\ ~ In (food s') (snake s')
      /\ prev_hand_pos s' = prev_hand_pos s
      /\ (forall fuel0 k0 s0 k1,
            init fuel0 k0 = Done (s0, k1) ->
            snake s' = snake s0 /\ direction s' = direction s0 /\
            score s' = score s0 /\ game_over s' = game_over s0))
  /\ (forall n,
        0 < GRID_WIDTH -> 0 < GRID_HEIGHT ->
        ~ In (candidate k n) [(GRID_WIDTH / 2, GRID_HEIGHT / 2)] ->
        (n < fuel)%nat ->
        exists s' k', reset fuel s k = Done (s', k')).
Proof.
  split.
  - intros s' k' H. apply reset_Done in H. destruct H as (f & Hn & ->).
    cbn [snake direction score game_over food prev_hand_pos].
    destruct (new_food_sound _ _ _ _ _ Hn) as [Hg Hf].
    do 4 (split; [reflexivity|]).
    split; [exact Hn|]. split; [exact Hg|]. split; [exact Hf|].
    split; [reflexivity|].
    intros fuel0 k0 s0 k1 H0. apply init_Done in H0.
    destruct H0 as (f0 & _ & ->). repeat split.
  - intros n Hw Hh Hn Hlt.
    destruct (new_food_runs n fuel _ k Hw Hh Hn Hlt) as (f & k' & E & _).
    unfold reset, bind. rewrite E. unfold ret. eauto.
Qed.

(** The restart key of [main]: the game is reset and the speed goes back
    to its minimum. *)
Lemma main_restart fuel fr l k l' k' :
  frame_ok fr = true -> key fr = KeyR ->
  main_iter fuel fr l k = Done (Some l', k') ->
  current_speed l' = MIN_SPEED /\ game_over (game l') = false /\
  score (game l') = 0 /\ direction (game l') = (0, 0).
Proof.
  intros Hf Hk H. unfold main_iter in H. rewrite Hf, Hk in H. simpl in H.
  inv_bind H. inv_bind H. unfold ret in H. injection H as <- <-.
  apply reset_Done in H1. destruct H1 as (f & _ & ->). repeat split.
Qed.

(** An iteration of the loop of [main] stays within the reachable states. *)
Lemma main_iter_reachable fuel fr l k l' k' :
  reachable (game l) ->
  main_iter fuel fr l k = Done (Some l', k') ->
  reachable (game l').
Proof.
  intros Hr H. unfold main_iter in H.
  destruct (frame_ok fr); simpl in H; [|discriminate].
  set (g1 := match hand fr with
             | Some (hand_pos, _) => on_hand hand_pos (game l)
             | None => game l
             end) in H.
  assert (Hr1 : reachable g1).
  { subst g1. destruct (hand fr) as [[hand_pos sp]|]; [|assumption].
    apply (reach_step fuel (OpHand hand_pos) k (game l) _ k Hr).
    reflexivity. }
  inv_bind H.
  assert (Hr2 : reachable a).
  { destruct (tick_due fr).
    - apply (reach_step fuel (OpUpdate (direction g1)) k g1 a k0 Hr1 H0).
    - unfold ret in H0. injection H0 as <- <-. assumption. }
  destruct (key fr).
  - discriminate.
  - inv_bind H. unfold ret in H. injection H as <- <-.
    apply (reach_step fuel OpReset k0 a a0 k1 Hr2 H1).
  - unfold ret in H. injection H as <- <-. assumption.
Qed.

(** ** The gesture step *)

(** C6. A candidate that is the componentwise negation of the current
    direction is never applied, whatever the length of the snake: the
    guarded assignment leaves the direction, and so does the gesture step
    on a game whose classifier proposes the reverse. *)
Theorem reverse_candidate_rejected :
  (forall cur cand, cand = neg cur -> steer cur cand = cur)
  /\ (forall s hand_pos prev cand,
        prev_hand_pos s = Some prev ->
        classify (fst hand_pos - fst prev) (snd hand_pos - snd prev)
          = Some cand ->
        cand = neg (direction s) ->
        direction (on_hand hand_pos s) = direction s).
Proof.
  assert (Hs : forall cur cand, cand = neg cur -> steer cur cand = cur).
  { intros cur cand ->. unfold steer, neg; simpl.
    rewrite !Z.eqb_refl. reflexivity. }
  split; [exact Hs|].
  intros s hand_pos prev cand Hp Hc Hn.
  unfold on_hand. rewrite Hp. cbv zeta. rewrite Hc.
  cbn [direction set_prev_hand_pos set_direction]. apply Hs, Hn.
Qed.

(** C8. For a displacement [(dx, dy)] between two consecutive hand
    positions the classifier proposes a candidate exactly when the
    displacement on the dominant axis exceeds 20 pixels, and the candidate
    is the unit vector along that axis (horizontal if [|dx| > |dy|], else
    vertical) with the sign of the displacement on it. *)
Theorem classify_dominant_axis dx dy :
  classify dx dy = dominant_candidate dx dy
  /\ ((exists c, classify dx dy = Some c)
      <-> 20 < Z.max (Z.abs dx) (Z.abs dy))
  /\ (forall c, classify dx dy = Some c ->
        (Z.abs dy < Z.abs dx -> c = (Z.sgn dx, 0)) /\
        (Z.abs dx <= Z.abs dy -> c = (0, Z.sgn dy))).
Proof.
  assert (E : classify dx dy = dominant_candidate dx dy).
  { unfold classify, dominant_candidate, THRESHOLD.
    rewrite !Z.gtb_ltb.
    destruct (Z.ltb_spec 20 (Z.abs dx)), (Z.ltb_spec 20 (Z.abs dy)),
      (Z.ltb_spec 20 (Z.max (Z.abs dx) (Z.abs dy))),
      (Z.ltb_spec (Z.abs dy) (Z.abs dx)),
      (Z.ltb_spec 0 dx), (Z.ltb_spec 0 dy);
      simpl; try lia; try reflexivity;
      repeat f_equal;
      first [ symmetry; apply Z.sgn_pos; lia
            | symmetry; apply Z.sgn_neg; lia ]. }
  split; [exact E|]. rewrite E. unfold dominant_candidate, THRESHOLD.
  rewrite !Z.gtb_ltb. split.
  - destruct (Z.ltb_spec 20 (Z.max (Z.abs dx) (Z.abs dy))).
    + split; eauto.
    + split; [intros [c Hc]; discriminate | lia].
  - intros c Hc.
    destruct (Z.ltb_spec 20 (Z.max (Z.abs dx) (Z.abs dy))); [|discriminate].
    destruct (Z.ltb_spec (Z.abs dy) (Z.abs dx)); injection Hc as <-;
      split; intros; first [reflexivity | lia].
Qed.

(** ** More on [update]: score, bounds, exceptions *)

Lemma Forall_removelast (P : Cell -> Prop) (l : list Cell) :
  Forall P l -> Forall P (removelast l).
Proof.
  rewrite !Forall_forall. intros H c Hc. apply H, in_removelast, Hc.
Qed.

Lemma collides_out new_head body :
  ~ in_grid new_head -> collides new_head body = true.
Proof.
  intros Hout. destruct (collides new_head body) eqn:E; [reflexivity|].
  apply collides_false in E. tauto.
Qed.

Lemma center_in_grid :
  0 < GRID_WIDTH -> 0 < GRID_HEIGHT ->
  in_grid (GRID_WIDTH / 2, GRID_HEIGHT / 2).
Proof.
  intros Hw Hh. unfold in_grid; simpl.
  pose proof (Z.div_pos GRID_WIDTH 2). pose proof (Z.div_pos GRID_HEIGHT 2).
  pose proof (Z.div_lt GRID_WIDTH 2). pose proof (Z.div_lt GRID_HEIGHT 2).
  lia.
Qed.

Lemma new_food_grid fuel body k f k' :
  new_food fuel body k = Done (f, k') -> 0 < GRID_WIDTH /\ 0 < GRID_HEIGHT.
Proof.
  intros H. apply new_food_sound in H. destruct H as [[Hx Hy] _]. lia.
Qed.

Lemma new_food_not_raised fuel body k e :
  0 < GRID_WIDTH -> 0 < GRID_HEIGHT -> new_food fuel body k <> Raised e.
Proof.
  intros Hw Hh. revert k. induction fuel as [|fuel IH]; intros k.
  - discriminate.
  - rewrite new_food_round by assumption.
    destruct (negb (mem (candidate k 0) body)); [discriminate | apply IH].
Qed.

(** X1. A returning [update] leaves the score or adds exactly 1 to it; it
    adds 1 exactly when the game is running and the new head is off the
    body, in the grid and on the food; and the snake grows by as many
    cells as the score grows. *)
Theorem update_score fuel d s k s' k' :
  update fuel d s k = Done (s', k') ->
  (score s' = score s \/ score s' = score s + 1)
  /\ (score s' = score s + 1 <->
      game_over s = false /\
      exists head body,
        snake s = head :: body /\
        collides (fst head + fst d, snd head + snd d) (snake s) = false /\
        (fst head + fst d, snd head + snd d) = food s)
  /\ Z.of_nat (length (snake s')) - Z.of_nat (length (snake s))
     = score s' - score s.
Proof.
  intros H. apply update_Done in H.
  destruct H as [[Hg ->] | [Hg (head & body & Hs & H)]].
  - split; [left; reflexivity|]. split; [|lia].
    split; [intros; lia | intros [Hg' _]; congruence].
  - cbv zeta in H.
    destruct H as [[Hc ->] | [(Hc & Hf & f & _ & ->) | (Hc & Hf & ->)]];
      cbn [score snake set_game_over].
    + split; [left; reflexivity|]. split; [|lia].
      split; [intros; lia|].
      intros (_ & h & b & Hs' & Hc' & _). rewrite Hs in Hs'.
      injection Hs' as <- <-. congruence.
    + split; [right; reflexivity|]. split; [|cbn [length]; lia].
      split; [|reflexivity].
      intros _. split; [assumption|]. exists head, body. auto.
    + split; [left; reflexivity|].
      split; [|rewrite length_removelast_cons; lia].
      split; [intros; lia|].
      intros (_ & h & b & Hs' & _ & Hf'). rewrite Hs in Hs'.
      injection Hs' as <- <-. contradiction.
Qed.

(** X5. A running game whose new head leaves the grid ends: [game_over]
    is set, nothing else changes and no draw is consumed. *)
Theorem update_out_of_grid fuel d s k head body :
  game_over s = false -> snake s = head :: body ->
  ~ in_grid (fst head + fst d, snd head + snd d) ->
  exists s',
    update fuel d s k = Done (s', k)
    /\ game_over s' = true
    /\ snake s' = snake s
    /\ food s' = food s
    /\ score s' = score s
    /\ direction s' = direction s
    /\ prev_hand_pos s' = prev_hand_pos s.
Proof.
  intros Hg Hs Hout. exists (set_game_over true s). split.
  - eapply update_collide; eauto. apply collides_out, Hout.
  - apply set_game_over_fields.
Qed.

(** X9. There is no winning move: when the tick onto the food makes the
    snake cover every grid cell, [update] never returns, whatever the
    fuel. *)
Theorem update_full_board_hangs fuel d s k head body :
  game_over s = false -> snake s = head :: body ->
  let new_head := (fst head + fst d, snd head + snd d) in
  collides new_head (snake s) = false ->
  new_head = food s ->
  (forall c, in_grid c -> In c (new_head :: snake s)) ->
  update fuel d s k = OutOfFuel.
Proof.
  intros Hg Hs new_head Hc Hf Hfull.
  destruct (collides_false _ _ Hc) as [_ [Hx Hy]].
  unfold update. rewrite Hg, Hs. rewrite Hs in Hc, Hfull.
  fold new_head. cbv zeta. rewrite Hc.
  assert (E : cell_eqb new_head (food s) = true) by (apply cell_eqb_eq, Hf).
  rewrite E. unfold bind.
  rewrite new_food_full; [reflexivity | lia | lia | exact Hfull].
Qed.

(** ** More invariants of the reachable states *)

Lemma reachable_grid s : reachable s -> 0 < GRID_WIDTH /\ 0 < GRID_HEIGHT.
Proof.
  induction 1 as [fuel k s k' H | fuel o k s s' k' Hr IH H]; [|exact IH].
  apply init_Done in H. destruct H as (f & Hn & _).
  eapply new_food_grid, Hn.
Qed.

Lemma reachable_direction s :
  reachable s -> direction s = (0, 0) \/ cardinal (direction s).
Proof.
  induction 1 as [fuel k s k' H | fuel o k s s' k' Hr IH H].
  - apply init_Done in H. destruct H as (f & _ & ->). left; reflexivity.
  - destruct o as [d | | hand_pos]; simpl in H.
    + apply update_direction in H. rewrite H. exact IH.
    + apply reset_Done in H. destruct H as (f & _ & ->). left; reflexivity.
    + inv_ret H. destruct (on_hand_direction hand_pos s) as [-> | Hc]; auto.
Qed.

Lemma reachable_length s :
  reachable s -> Z.of_nat (length (snake s)) = score s + 1.
Proof.
  induction 1 as [fuel k s k' H | fuel o k s s' k' Hr IH H].
  - apply init_Done in H. destruct H as (f & _ & ->). reflexivity.
  - destruct o as [d | | hand_pos]; simpl in H.
    + apply update_Done in H.
      destruct H as [[_ ->] | [_ (head & body & _ & H)]]; [assumption|].
      cbv zeta in H.
      destruct H as [[_ ->] | [(_ & _ & f & _ & ->) | (_ & _ & ->)]];
        cbn [score snake set_game_over].
      * assumption.
      * cbn [length]. lia.
      * rewrite length_removelast_cons. assumption.
    + apply reset_Done in H. destruct H as (f & _ & ->). reflexivity.
    + inv_ret H. destruct (on_hand_fields hand_pos s) as (-> & _ & -> & _).
      assumption.
Qed.

Lemma reachable_cells_in_grid s :
  reachable s -> Forall in_grid (snake s) /\ in_grid (food s).
Proof.
  induction 1 as [fuel k s k' H | fuel o k s s' k' Hr IH H].
  - apply init_Done in H. destruct H as (f & Hn & ->).
    destruct (new_food_grid _ _ _ _ _ Hn) as [Hw Hh].
    cbn [snake food]. split.
    + constructor; [apply center_in_grid; assumption | constructor].
    + eapply new_food_sound, Hn.
  - destruct o as [d | | hand_pos]; simpl in H.
    + apply update_Done in H.
      destruct H as [[_ ->] | [_ (head & body & _ & H)]]; [assumption|].
      cbv zeta in H. destruct IH as [IHs IHf].
      destruct H as [[_ ->] | [(Hc & _ & f & Hn & ->) | (Hc & _ & ->)]];
        cbn [snake food set_game_over].
      * auto.
      * apply collides_false in Hc. split.
        -- constructor; tauto.
        -- eapply new_food_sound, Hn.
      * apply collides_false in Hc. split; [|assumption].
        apply Forall_removelast. constructor; tauto.
    + apply reset_Done in H. destruct H as (f & Hn & ->).
      destruct (new_food_grid _ _ _ _ _ Hn) as [Hw Hh].
      cbn [snake food]. split.
      * constructor; [apply center_in_grid; assumption | constructor].
      * eapply new_food_sound, Hn.
    + inv_ret H. destruct (on_hand_fields hand_pos s) as (-> & -> & _).
      assumption.
Qed.

(** X2. In every reachable state the snake has one cell more than the
    score: the score is the number of cells grown; the snake is never
    empty and the score is never negative. *)
Theorem reachable_length_score s :
  reachable s ->
  Z.of_nat (length (snake s)) = score s + 1
  /\ snake s <> []
  /\ 0 <= score s.
Proof.
  intros Hr. pose proof (reachable_length s Hr) as Hl.
  pose proof (reachable_nonempty s Hr) as Hne.
  split; [exact Hl|]. split; [exact Hne|].
  destruct (snake s) as [|c l]; [congruence|].
  cbn [length] in Hl. lia.
Qed.

(** X3. In every reachable state every cell of the snake and the food
    lie inside the grid. *)
Theorem reachable_in_grid s :
  reachable s ->
  (forall c, In c (snake s) -> in_grid c) /\ in_grid (food s).
Proof.
  intros Hr. destruct (reachable_cells_in_grid s Hr) as [Hs Hf].
  rewrite Forall_forall in Hs. split; assumption.
Qed.

(** X4. In every reachable state the food is not under the snake. *)
Theorem reachable_food_free s :
  reachable s -> ~ In (food s) (snake s).
Proof.
  induction 1 as [fuel k s k' H | fuel o k s s' k' Hr IH H].
  - apply init_Done in H. destruct H as (f & Hn & ->).
    eapply new_food_sound, Hn.
  - destruct o as [d | | hand_pos]; simpl in H.
    + apply update_Done in H.
      destruct H as [[_ ->] | [_ (head & body & _ & H)]]; [assumption|].
      cbv zeta in H.
      destruct H as [[_ ->] | [(_ & _ & f & Hn & ->) | (_ & Hf & ->)]];
        cbn [snake food set_game_over].
      * assumption.
      * eapply new_food_sound, Hn.
      * intros Hin. apply in_removelast in Hin.
        destruct Hin as [E | Hin]; [apply Hf, E | apply IH, Hin].
    + apply reset_Done in H. destruct H as (f & Hn & ->).
      eapply new_food_sound, Hn.
    + inv_ret H. destruct (on_hand_fields hand_pos s) as (-> & -> & _).
      assumption.
Qed.

(** X6. On a reachable state [update] raises no exception, whatever its
    argument: it returns or it is still drawing food.  The [IndexError]
    of [self.snake[0]] needs a running game with an empty snake, which is
    not reachable. *)
Theorem update_never_raises s :
  (reachable s -> forall fuel d k e, update fuel d s k <> Raised e)
  /\ (game_over s = false -> snake s = [] ->
      forall fuel d k, update fuel d s k = Raised IndexError).
Proof.
  split.
  - intros Hr fuel d k e.
    destruct (reachable_grid s Hr) as [Hw Hh].
    pose proof (reachable_nonempty s Hr) as Hne.
    unfold update. destruct (game_over s); [discriminate|].
    destruct (snake s) as [|head body]; [congruence|]. cbv zeta.
    destruct (collides _ _); [discriminate|].
    destruct (cell_eqb _ _); [|discriminate].
    unfold bind.
    destruct (new_food fuel _ k) as [[f k1]| e' |] eqn:E; try discriminate.
    exfalso. eapply new_food_not_raised; eauto.
  - intros Hg Hs fuel d k. unfold update. rewrite Hg, Hs. reflexivity.
Qed.

(** ** A grid without cells, and what [new_food] returns *)

Lemma new_food_no_grid fuel body k :
  GRID_WIDTH <= 0 \/ GRID_HEIGHT <= 0 ->
  new_food (S fuel) body k = Raised ValueError.
Proof.
  intros Hno. cbn [new_food]. unfold bind, randint.
  destruct (Z.leb_spec 0 (GRID_WIDTH - 1)); [|reflexivity].
  destruct (Z.leb_spec 0 (GRID_HEIGHT - 1)); [lia | reflexivity].
Qed.

(** X7. Building or restarting a game raises [ValueError] exactly when
    the grid has no cells, that is when the frame is narrower or lower
    than one cell. *)
Theorem reset_raises_iff_no_grid fuel s k :
  (reset (S fuel) s k = Raised ValueError
   <-> GRID_WIDTH <= 0 \/ GRID_HEIGHT <= 0)
  /\ (init (S fuel) k = Raised ValueError
      <-> GRID_WIDTH <= 0 \/ GRID_HEIGHT <= 0)
  /\ (GRID_WIDTH <= 0 \/ GRID_HEIGHT <= 0 <-> WIDTH < 20 \/ HEIGHT < 20).
Proof.
  assert (Hr : forall s0,
             reset (S fuel) s0 k = Raised ValueError
             <-> GRID_WIDTH <= 0 \/ GRID_HEIGHT <= 0).
  { intros s0. split.
    - intros H.
      destruct (Z.lt_ge_cases 0 GRID_WIDTH) as [Hw|Hw]; [|lia].
      destruct (Z.lt_ge_cases 0 GRID_HEIGHT) as [Hh|Hh]; [|lia].
      exfalso. unfold reset, bind in H.
      destruct (new_food (S fuel) _ k) as [[f k1]| e |] eqn:E;
        try discriminate.
      eapply new_food_not_raised; eauto.
    - intros Hno. unfold reset, bind.
      rewrite new_food_no_grid by assumption. reflexivity. }
  split; [apply Hr|]. split.
  - rewrite <- (Hr blank). unfold init, bind.
    destruct (reset (S fuel) blank k) as [[s0 k1]| e |];
      split; intros H; try discriminate; assumption.
  - unfold GRID_WIDTH, GRID_HEIGHT, GRID_SIZE.
    pose proof (Z.div_mod WIDTH 20). pose proof (Z.mod_pos_bound WIDTH 20).
    pose proof (Z.div_mod HEIGHT 20). pose proof (Z.mod_pos_bound HEIGHT 20).
    lia.
Qed.

(** X10. [new_food] returns the first proposed cell that is off the
    body: every earlier round proposed a cell of the body, and each round
    consumed two draws. *)
Theorem new_food_first_free fuel body k f k' :
  new_food fuel body k = Done (f, k') ->
  exists n,
    (n < fuel)%nat
    /\ f = candidate k n
    /\ k' = (k + 2 * S n)%nat
    /\ ~ In f body
    /\ forall i, (i < n)%nat -> In (candidate k i) body.
Proof.
  intros H. destruct (new_food_grid _ _ _ _ _ H) as [Hw Hh].
  revert k H. induction fuel as [|fuel IH]; intros k H; [discriminate|].
  rewrite new_food_round in H by assumption.
  destruct (mem (candidate k 0) body) eqn:E; simpl in H.
  - destruct (IH _ H) as (n & Hlt & Hf & Hk & Hfree & Hbusy).
    exists (S n). rewrite <- candidate_shift.
    split; [lia|]. split; [exact Hf|]. split; [lia|]. split; [exact Hfree|].
    intros [|i] Hi.
    + apply mem_In, E.
    + rewrite <- candidate_shift. apply Hbusy. lia.
  - injection H as <- <-. exists 0%nat.
    split; [lia|]. split; [reflexivity|]. split; [lia|].
    split; [apply mem_false, E|]. intros i Hi; lia.
Qed.

(** ** Runs of operations *)

Lemma run_ops_cons fuel o ops s k :
  run_ops fuel (o :: ops) s k =
  match run_op fuel o s k with
  | Done (s', k') => run_ops fuel ops s' k'
  | Raised e => Raised e
  | OutOfFuel => OutOfFuel
  end.
Proof. reflexivity. Qed.

Lemma run_ops_finished fuel ops s k :
  game_over s = true ->
  forallb (fun o => negb (is_reset o)) ops = true ->
  exists s',
    run_ops fuel ops s k = Done (s', k)
    /\ snake s' = snake s /\ food s' = food s
    /\ score s' = score s /\ game_over s' = true.
Proof.
  revert s. induction ops as [|o ops IH]; intros s Hg Hops.
  - exists s. repeat split; assumption.
  - simpl in Hops. apply andb_true_iff in Hops. destruct Hops as [Ho Hops].
    rewrite run_ops_cons.
    destruct o as [d | | hand_pos]; [| discriminate |]; cbn [run_op].
    + rewrite update_over by assumption. apply IH; assumption.
    + unfold ret at 1.
      destruct (on_hand_fields hand_pos s) as (Hs & Hf & Hsc & Hgo & _).
      destruct (IH (on_hand hand_pos s))
        as (s' & Hrun & Hs' & Hf' & Hsc' & Hg');
        [congruence | assumption |].
      exists s'. repeat split; congruence.
Qed.

Lemma steer_apply cur new_dir :
  new_dir <> neg cur -> steer cur new_dir = new_dir.
Proof.
  intros Hne. unfold steer.
  destruct (Z.eqb_spec (fst new_dir) (- fst cur)) as [E1|E1];
    [|reflexivity].
  destruct (Z.eqb_spec (snd new_dir) (- snd cur)) as [E2|E2];
    [|reflexivity].
  exfalso. apply Hne. unfold neg. destruct new_dir; simpl in *. congruence.
Qed.

(** C7, as the code has it. In a finished game [update] is a no-op
    whatever its argument: the game comes back as it was and no draw is
    consumed.  Under any run of ticks and gesture steps the snake, the
    food, the score and [game_over] keep their values, and it is [reset]
    that clears [game_over].  The gesture step of [main] does not look at
    [game_over]: it still records the hand position and sets the
    direction to a candidate that is not the reverse. *)
Theorem finished_game_until_reset s :
  game_over s = true ->
  (forall fuel d k, update fuel d s k = Done (s, k))
  /\ (forall fuel ops k,
        forallb (fun o => negb (is_reset o)) ops = true ->
        exists s',
          run_ops fuel ops s k = Done (s', k)
          /\ snake s' = snake s /\ food s' = food s
          /\ score s' = score s /\ game_over s' = true)
  /\ (forall fuel k s' k',
        reset fuel s k = Done (s', k') -> game_over s' = false)
  /\ (forall hand_pos,
        prev_hand_pos (on_hand hand_pos s) = Some hand_pos)
  /\ (forall hand_pos prev c,
        prev_hand_pos s = Some prev ->
        classify (fst hand_pos - fst prev) (snd hand_pos - snd prev)
          = Some c ->
        c <> neg (direction s) ->
        direction (on_hand hand_pos s) = c).
Proof.
  intros Hg. split; [|split; [|split; [|split]]].
  - intros fuel d k. apply update_over, Hg.
  - intros fuel ops k Hops. apply run_ops_finished; assumption.
  - intros fuel k s' k' H. apply reset_Done in H.
    destruct H as (f & _ & ->). reflexivity.
  - intros hand_pos. apply on_hand_fields.
  - intros hand_pos prev c Hp Hc Hne. unfold on_hand. rewrite Hp.
    cbv zeta. rewrite Hc. cbn [direction set_prev_hand_pos set_direction].
    apply steer_apply, Hne.
Qed.

(** X11. A finished game stays as it is under any run of ticks and
    gestures: until a [reset], the snake, the food, the score and
    [game_over] keep their values and no draw is consumed. *)
Theorem game_over_absorbing fuel ops s k :
  game_over s = true ->
  forallb (fun o => negb (is_reset o)) ops = true ->
  exists s',
    run_ops fuel ops s k = Done (s', k)
    /\ snake s' = snake s /\ food s' = food s
    /\ score s' = score s /\ game_over s' = true.
Proof.
  revert s. induction ops as [|o ops IH]; intros s Hg Hops.
  - exists s. repeat split; assumption.
  - simpl in Hops. apply andb_true_iff in Hops. destruct Hops as [Ho Hops].
    rewrite run_ops_cons.
    destruct o as [d | | hand_pos]; [| discriminate |]; cbn [run_op].
    + rewrite update_over by assumption. apply IH; assumption.
    + unfold ret at 1.
      destruct (on_hand_fields hand_pos s) as (Hs & Hf & Hsc & Hgo & _).
      destruct (IH (on_hand hand_pos s)) as (s' & Hrun & Hs' & Hf' & Hsc' & Hg');
        [congruence | assumption |].
      exists s'. repeat split; congruence.
Qed.

Lemma steer_cardinal cur new_dir :
  cardinal cur -> cardinal new_dir -> cardinal (steer cur new_dir).
Proof.
  intros Hc Hn. destruct (steer_cases cur new_dir) as [-> | ->]; assumption.
Qed.

Lemma on_hand_cardinal hand_pos s :
  cardinal (direction s) -> cardinal (direction (on_hand hand_pos s)).
Proof.
  intros Hc. unfold on_hand.
  destruct (prev_hand_pos s) as [prev|]; [|exact Hc].
  destruct (classify _ _) as [c|] eqn:E; [|exact Hc].
  cbn [direction set_prev_hand_pos set_direction].
  apply steer_cardinal; [exact Hc | eapply classify_cardinal, E].
Qed.

(** X15. Once the direction is a unit vector it stays one under any run
    of ticks and gestures: only [reset] brings the zero direction
    back. *)
Theorem cardinal_direction_stays fuel ops s k s' k' :
  cardinal (direction s) ->
  forallb (fun o => negb (is_reset o)) ops = true ->
  run_ops fuel ops s k = Done (s', k') ->
  cardinal (direction s').
Proof.
  revert s k. induction ops as [|o ops IH]; intros s k Hc Hops H.
  - inv_ret H. exact Hc.
  - simpl in Hops. apply andb_true_iff in Hops. destruct Hops as [Ho Hops].
    rewrite run_ops_cons in H.
    destruct (run_op fuel o s k) as [[s1 k1]| |] eqn:E; try discriminate.
    apply (IH s1 k1); try assumption.
    destruct o as [d | | hand_pos]; [| discriminate |]; cbn [run_op] in E.
    + apply update_direction in E. rewrite E. exact Hc.
    + inv_ret E. apply on_hand_cardinal, Hc.
Qed.

(** ** More on the gesture step *)

Lemma last_cons_default (x : Cell) (l : list Cell) (d d' : Cell) :
  last (x :: l) d = last (x :: l) d'.
Proof.
  revert x. induction l as [|y l IH]; intros x; [reflexivity|].
  change (last (y :: l) d = last (y :: l) d'). apply IH.
Qed.

Lemma classify_small dx dy :
  Z.abs dx <= THRESHOLD -> Z.abs dy <= THRESHOLD -> classify dx dy = None.
Proof.
  intros Hx Hy. unfold classify. rewrite !Z.gtb_ltb.
  destruct (Z.ltb_spec THRESHOLD (Z.abs dx)); [lia|].
  destruct (Z.ltb_spec THRESHOLD (Z.abs dy)); [lia|]. reflexivity.
Qed.

Lemma steer_not_reverse cur new_dir :
  cur <> (0, 0) -> steer cur new_dir <> neg cur.
Proof.
  intros Hne. unfold steer, neg.
  destruct cur as [cx cy], new_dir as [nx ny]; simpl.
  destruct (Z.eqb_spec nx (- cx)), (Z.eqb_spec ny (- cy)); simpl;
    intros E; injection E as E1 E2; try lia.
  apply Hne. f_equal; lia.
Qed.

(** X12. One gesture never reverses a moving snake: whatever the hand
    position, the direction after the gesture step is not the negation of
    a non-zero direction before it. *)
Theorem gesture_never_reverses hand_pos s :
  direction s <> (0, 0) ->
  direction (on_hand hand_pos s) <> neg (direction s).
Proof.
  intros Hne.
  assert (Hself : direction s <> neg (direction s)).
  { unfold neg. destruct (direction s) as [cx cy]; simpl in *.
    intros E; injection E as E1 E2. apply Hne. f_equal; lia. }
  unfold on_hand. destruct (prev_hand_pos s) as [prev|]; [|exact Hself].
  destruct (classify _ _) as [c|]; [|exact Hself].
  cbn [direction set_prev_hand_pos set_direction].
  apply steer_not_reverse, Hne.
Qed.

(** X14. The displacement is taken between successive frames: a hand
    that moves at most 20 pixels per frame on each axis never turns the
    snake, however far it travels in all. *)
Theorem slow_hand_keeps_direction hps s prev :
  prev_hand_pos s = Some prev ->
  small_steps prev hps ->
  direction (run_hands hps s) = direction s
  /\ prev_hand_pos (run_hands hps s) = Some (last hps prev).
Proof.
  revert s prev. induction hps as [|hp hps IH]; intros s prev Hp Hsmall.
  - split; [reflexivity | exact Hp].
  - destruct Hsmall as (Hx & Hy & Hrest).
    assert (Hstep : on_hand hp s = set_prev_hand_pos (Some hp) s).
    { unfold on_hand. rewrite Hp. cbv zeta.
      rewrite classify_small by assumption. reflexivity. }
    change (run_hands (hp :: hps) s) with (run_hands hps (on_hand hp s)).
    destruct (IH (on_hand hp s) hp) as [Hd Hl].
    + rewrite Hstep. reflexivity.
    + exact Hrest.
    + rewrite Hd, Hl, Hstep. split; [reflexivity|].
      destruct hps as [|c hps]; [reflexivity|].
      rewrite last_cons_default with (d' := prev). reflexivity.
Qed.

Lemma on_hand_shift s prev dx dy c :
  prev_hand_pos s = Some prev -> classify dx dy = Some c ->
  on_hand (fst prev + dx, snd prev + dy) s
  = set_prev_hand_pos (Some (fst prev + dx, snd prev + dy))
      (set_direction (steer (direction s) c) s).
Proof.
  intros Hp Hc. unfold on_hand. rewrite Hp. cbn [fst snd].
  replace (fst prev + dx - fst prev) with dx by lia.
  replace (snd prev + dy - snd prev) with dy by lia.
  rewrite Hc. reflexivity.
Qed.

Lemma two_hands s prev dx1 dy1 c1 dx2 dy2 c2 :
  prev_hand_pos s = Some prev ->
  classify dx1 dy1 = Some c1 -> classify dx2 dy2 = Some c2 ->
  direction (on_hand (fst prev + dx1 + dx2, snd prev + dy1 + dy2)
               (on_hand (fst prev + dx1, snd prev + dy1) s))
  = steer (steer (direction s) c1) c2.
Proof.
  intros Hp H1 H2. rewrite (on_hand_shift s prev dx1 dy1 c1 Hp H1).
  set (s1 := set_prev_hand_pos _ _).
  pose proof (on_hand_shift s1 (fst prev + dx1, snd prev + dy1) dx2 dy2 c2
                eq_refl H2) as E.
  cbn [fst snd] in E. rewrite E. reflexivity.
Qed.

(** X13. The guard compares a candidate with the direction last set, not
    with the last move: two gestures between two ticks turn a moving
    snake right round, and the next tick runs the head into the cell
    behind it and ends the game. *)
Theorem two_gestures_reverse fuel s k head second rest prev :
  game_over s = false ->
  snake s = head :: second :: rest ->
  cardinal (direction s) ->
  second = (fst head - fst (direction s), snd head - snd (direction s)) ->
  prev_hand_pos s = Some prev ->
  exists hp1 hp2,
    let s2 := run_hands [hp1; hp2] s in
    direction s2 = neg (direction s)
    /\ exists s3,
        update fuel (direction s2) s2 k = Done (s3, k)
        /\ game_over s3 = true
        /\ snake s3 = snake s
        /\ food s3 = food s
        /\ score s3 = score s.
Proof.
  intros Hg Hs Hc Hsec Hp.
  assert (Htwo : exists hp1 hp2,
             direction (run_hands [hp1; hp2] s) = neg (direction s)).
  { unfold run_hands; cbn [fold_left].
    destruct Hc as [E | [E | [E | E]]].
    - exists (fst prev + 0, snd prev + 21),
             (fst prev + 0 + -21, snd prev + 21 + 0).
      rewrite (two_hands s prev 0 21 (0, 1) (-21) 0 (-1, 0) Hp eq_refl eq_refl).
      rewrite E. reflexivity.
    - exists (fst prev + 0, snd prev + 21),
             (fst prev + 0 + 21, snd prev + 21 + 0).
      rewrite (two_hands s prev 0 21 (0, 1) 21 0 (1, 0) Hp eq_refl eq_refl).
      rewrite E. reflexivity.
    - exists (fst prev + 21, snd prev + 0),
             (fst prev + 21 + 0, snd prev + 0 + -21).
      rewrite (two_hands s prev 21 0 (1, 0) 0 (-21) (0, -1) Hp eq_refl eq_refl).
      rewrite E. reflexivity.
    - exists (fst prev + 21, snd prev + 0),
             (fst prev + 21 + 0, snd prev + 0 + 21).
      rewrite (two_hands s prev 21 0 (1, 0) 0 21 (0, 1) Hp eq_refl eq_refl).
      rewrite E. reflexivity. }
  destruct Htwo as (hp1 & hp2 & Hd). exists hp1, hp2. cbv zeta.
  split; [exact Hd|].
  unfold run_hands in *; cbn [fold_left] in *.
  set (s2 := on_hand hp2 (on_hand hp1 s)) in *.
  assert (Hs2 : snake s2 = snake s).
  { subst s2. destruct (on_hand_fields hp2 (on_hand hp1 s)) as [-> _].
    apply on_hand_fields. }
  assert (Hg2 : game_over s2 = false).
  { subst s2. destruct (on_hand_fields hp2 (on_hand hp1 s)) as (_ & _ & _ & -> & _).
    destruct (on_hand_fields hp1 s) as (_ & _ & _ & -> & _). exact Hg. }
  assert (Hf2 : food s2 = food s /\ score s2 = score s).
  { subst s2.
    destruct (on_hand_fields hp2 (on_hand hp1 s)) as (_ & -> & -> & _).
    destruct (on_hand_fields hp1 s) as (_ & -> & -> & _). auto. }
  exists (set_game_over true s2). split.
  - apply (update_collide fuel (direction s2) s2 k head (second :: rest) Hg2).
    + rewrite Hs2. exact Hs.
    + apply collides_In. rewrite Hs2, Hs, Hd. right; left.
      rewrite Hsec. unfold neg; cbn [fst snd]. f_equal; lia.
  - destruct (set_game_over_fields true s2) as (Eg & Es & Ef & Esc & _).
    destruct Hf2 as [Ef2 Esc2].
    rewrite Eg, Es, Ef, Esc, Hs2, Ef2, Esc2. repeat split.
Qed.

(** ** The loop of [main] *)

(** What an iteration that goes on did. *)
Lemma main_iter_Done fuel fr l k l' k' :
  main_iter fuel fr l k = Done (Some l', k') ->
  let g1 := match hand fr with
            | Some (hand_pos, _) => on_hand hand_pos (game l)
            | None => game l
            end in
  let speed := match hand fr with
               | Some (_, sp) => sp
               | None => current_speed l
               end in
  frame_ok fr = true
  /\ exists g2 k2,
      (if tick_due fr
       then update fuel (direction g1) g1 k = Done (g2, k2)
       else g2 = g1 /\ k2 = k)
      /\ ((key fr = KeyR /\ current_speed l' = MIN_SPEED /\
           reset fuel g2 k2 = Done (game l', k'))
          \/ (key fr = KeyOther /\ l' = mkLoop g2 speed /\ k' = k2)).
Proof.
  intros H g1 speed. unfold main_iter in H.
  destruct (frame_ok fr); simpl in H; [|discriminate].
  split; [reflexivity|]. fold g1 in H. fold speed in H.
  inv_bind H. exists a, k0. split.
  - destruct (tick_due fr); [exact H0|].
    unfold ret in H0. injection H0 as <- <-. auto.
  - destruct (key fr).
    + discriminate.
    + left. inv_bind H. unfold ret in H. injection H as <- <-. auto.
    + right. unfold ret in H. injection H as <- <-. auto.
Qed.

Lemma loop_reachable_reachable l : loop_reachable l -> reachable (game l).
Proof.
  induction 1 as [fuel k g k' H | fuel fr k l l' k' Hl IH Hfr H].
  - eapply reach_init; eauto.
  - eapply main_iter_reachable; eauto.
Qed.

Lemma clamp_speed_range raw :
  MIN_SPEED <= clamp_speed raw <= MAX_SPEED.
Proof. unfold clamp_speed, MIN_SPEED, MAX_SPEED. lia. Qed.

(** X16. At the top of every iteration of [main], [current_speed] lies
    between [MIN_SPEED] and [MAX_SPEED]: the period [1/current_speed] of
    the tick never divides by zero. *)
Theorem loop_speed_range l :
  loop_reachable l ->
  MIN_SPEED <= current_speed l <= MAX_SPEED /\ current_speed l <> 0.
Proof.
  intros Hl.
  assert (Hr : MIN_SPEED <= current_speed l <= MAX_SPEED).
  { induction Hl as [fuel k g k' H | fuel fr k l l' k' Hl IH Hfr H].
    - unfold MIN_SPEED, MAX_SPEED; simpl; lia.
    - apply main_iter_Done in H. cbv zeta in H.
      destruct H as (_ & g2 & k2 & _ & [(_ & -> & _) | (_ & -> & _)]).
      + unfold MIN_SPEED, MAX_SPEED; lia.
      + cbn [current_speed]. unfold from_process_hands in Hfr.
        destruct (hand fr) as [[hand_pos sp]|]; [|exact IH].
        destruct Hfr as [raw ->]. apply clamp_speed_range. }
  split; [exact Hr|]. unfold MIN_SPEED in Hr. lia.
Qed.

(** X20. A frame without a hand, with no restart, keeps what the last
    hand left: the speed, the direction and the previous hand position
    are unchanged, also across a tick. *)
Theorem no_hand_frame_persists fuel fr l k l' k' :
  hand fr = None -> key fr <> KeyR ->
  main_iter fuel fr l k = Done (Some l', k') ->
  current_speed l' = current_speed l
  /\ direction (game l') = direction (game l)
  /\ prev_hand_pos (game l') = prev_hand_pos (game l).
Proof.
  intros Hh Hk H. apply main_iter_Done in H. rewrite Hh in H. cbv zeta in H.
  destruct H as (_ & g2 & k2 & Ht & [(Hr & _) | (_ & -> & _)]);
    [contradiction|].
  cbn [current_speed game]. split; [reflexivity|].
  destruct (tick_due fr).
  - split; [eapply update_direction; eauto|].
    apply update_Done in Ht.
    destruct Ht as [[_ ->] | [_ (head & body & _ & Ht)]]; [reflexivity|].
    cbv zeta in Ht.
    destruct Ht as [[_ ->] | [(_ & _ & f & _ & ->) | (_ & _ & ->)]];
      reflexivity.
  - destruct Ht as [-> _]. auto.
Qed.

(** ** The shape of the snake in the loop *)

Lemma contiguous_removelast (l : list Cell) :
  contiguous l -> contiguous (removelast l).
Proof.
  induction l as [|a l IH]; [trivial|].
  destruct l as [|b l]; [trivial|].
  intros [Hab Hl]. rewrite removelast_cons_cons.
  specialize (IH Hl). destruct l as [|c l]; [exact I|].
  rewrite removelast_cons_cons in *. split; assumption.
Qed.

Lemma update_contiguous fuel d s k s' k' :
  d = (0, 0) \/ cardinal d ->
  contiguous (snake s) ->
  update fuel d s k = Done (s', k') ->
  contiguous (snake s').
Proof.
  intros Hd Hc H. apply update_Done in H.
  destruct H as [[_ ->] | [_ (head & body & Hs & H)]]; [assumption|].
  cbv zeta in H.
  assert (Hstep : collides (fst head + fst d, snd head + snd d) (snake s)
                  = false ->
                  contiguous ((fst head + fst d, snd head + snd d) :: snake s)).
  { intros Hcol. rewrite Hs in *. split; [|exact Hc].
    destruct Hd as [-> | Hd].
    - exfalso. apply collides_false in Hcol. apply (proj1 Hcol). left.
      destruct head; simpl. f_equal; lia.
    - unfold adjacent; cbn [fst snd].
      destruct Hd as [-> | [-> | [-> | ->]]]; cbn [fst snd]; lia. }
  destruct H as [[_ ->] | [(Hcol & _ & f & _ & ->) | (Hcol & _ & ->)]];
    cbn [snake set_game_over].
  - assumption.
  - apply Hstep, Hcol.
  - apply contiguous_removelast, Hstep, Hcol.
Qed.

(** X17. In every state of the loop of [main] the snake is a path: each
    cell is one step along an axis from the next one. *)
Theorem loop_snake_contiguous l :
  loop_reachable l -> contiguous (snake (game l)).
Proof.
  induction 1 as [fuel k g k' H | fuel fr k l l' k' Hl IH Hfr H].
  - apply init_Done in H. destruct H as (f & _ & ->). exact I.
  - pose proof (loop_reachable_reachable l Hl) as Hr.
    apply main_iter_Done in H. cbv zeta in H.
    destruct H as (_ & g2 & k2 & Ht & Hkey).
    set (g1 := match hand fr with
               | Some (hand_pos, _) => on_hand hand_pos (game l)
               | None => game l
               end) in *.
    assert (Hr1 : reachable g1).
    { subst g1. destruct (hand fr) as [[hand_pos sp]|]; [|assumption].
      apply (reach_step fuel (OpHand hand_pos) k (game l) _ k Hr).
      reflexivity. }
    assert (Hc1 : contiguous (snake g1)).
    { subst g1. destruct (hand fr) as [[hand_pos sp]|]; [|assumption].
      destruct (on_hand_fields hand_pos (game l)) as [-> _]. assumption. }
    assert (Hc2 : contiguous (snake g2)).
    { destruct (tick_due fr).
      - apply (update_contiguous fuel (direction g1) g1 k g2 k2);
          [apply reachable_direction, Hr1 | exact Hc1 | exact Ht].
      - destruct Ht as [-> _]. assumption. }
    destruct Hkey as [(_ & _ & Hreset) | (_ & -> & _)]; [|exact Hc2].
    apply reset_Done in Hreset. destruct Hreset as (f & _ & ->). exact I.
Qed.

(** ** [draw] *)


Lemma draw_In cmd s speed :
  In cmd (draw s speed) <->
  cmd = Fill BACKGROUND
  \/ (exists segment,
        In segment (snake s) /\
        cmd = Rectangle (fst segment * GRID_SIZE, snd segment * GRID_SIZE)
                (fst segment * GRID_SIZE + GRID_SIZE,
                 snd segment * GRID_SIZE + GRID_SIZE) SNAKE_COLOR (-1))
  \/ cmd = Circle (fst (food s) * GRID_SIZE + GRID_SIZE / 2,
                   snd (food s) * GRID_SIZE + GRID_SIZE / 2)
                  (GRID_SIZE / 2) FOOD_COLOR (-1)
  \/ cmd = PutText (String.append "Score: " (str (score s))) (10, 30)
                   FONT_HERSHEY_SIMPLEX 1 TEXT_COLOR 2
  \/ cmd = PutText (String.append "Speed: " (str speed)) (10, 60)
                   FONT_HERSHEY_SIMPLEX 1 TEXT_COLOR 2
  \/ (game_over s = true /\
      cmd = PutText "Game Over! (R to restart)"%string
              (WIDTH / 4, HEIGHT / 2) FONT_HERSHEY_SIMPLEX 1 TEXT_COLOR 2).
Proof.
  unfold draw. cbn [In]. rewrite !in_app_iff, in_map_iff. cbn [In].
  destruct (game_over s); cbn [In]; split.
  - intros [H | [(seg & H1 & H2) | [[H | [H | [H | []]]] | [H | []]]]]; eauto 10.
  - intros [H | [(seg & H1 & H2) | [H | [H | [H | (_ & H)]]]]]; subst; eauto 10.
  - intros [H | [(seg & H1 & H2) | [[H | [H | [H | []]]] | []]]]; eauto 10.
  - intros [H | [(seg & H1 & H2) | [H | [H | [H | (E & _)]]]]]; subst;
      eauto 10; discriminate.
Qed.



(** X19. [draw] writes the game-over text exactly when the game is
    over, whatever the score and the speed shown; it makes four calls
    besides one per cell of the snake, and one more for that text. *)
Theorem draw_game_over_text s speed :
  ((exists org font scale c t,
       In (PutText "Game Over! (R to restart)"%string org font scale c t)
          (draw s speed))
   <-> game_over s = true)
  /\ length (draw s speed)
     = (length (snake s) + 4 + (if game_over s then 1 else 0))%nat.
Proof.
  split.
  - split.
    + intros (org & font & scale & c & t & H). apply draw_In in H.
      destruct H as [H | [(seg & Hin & H) | [H | [H | [H | (E & _)]]]]];
        try discriminate; try exact E.
    + intros E. exists (WIDTH / 4, HEIGHT / 2), FONT_HERSHEY_SIMPLEX, 1,
        TEXT_COLOR, 2.
      apply draw_In. do 5 right. split; [exact E | reflexivity].
  - unfold draw. cbn [length]. rewrite !length_app, length_map.
    unfold Cell. destruct (game_over s); cbn [length Nat.add]; lia.
Qed.

End Game.

(** ** Termination of [new_food] over the draws *)

Lemma draws_of_candidate W H c k :
  Nat.even k = true -> in_grid W H c ->
  forall i, candidate W H (draws_of c) k i = c.
Proof.
  intros Hk [Hx Hy] i. unfold candidate, draws_of.
  assert (E : Nat.even (k + 2 * i) = true).
  { rewrite Nat.even_add, Hk, Nat.even_mul. reflexivity. }
  rewrite E. rewrite Nat.even_succ, <- Nat.negb_even, E. simpl.
  rewrite !Z.mod_small by assumption. destruct c; reflexivity.
Qed.

(** C10. When the body leaves a grid cell free, [new_food] returns for
    some sequence of draws, and for every sequence of draws in which some
    round proposes a free cell it returns once the fuel covers that round;
    the cell returned is inside the grid and free.  When the body covers
    every grid cell the call never returns: on a grid that has cells every
    amount of fuel runs out. *)
Theorem new_food_terminates W H body :
  ((exists c, in_grid W H c /\ ~ In c body) ->
     (exists draws fuel f k',
         new_food W H draws fuel body 0%nat = Done (f, k') /\
         in_grid W H f /\ ~ In f body)
     /\ (forall draws k n fuel,
           ~ In (candidate W H draws k n) body -> (n < fuel)%nat ->
           exists f k',
             new_food W H draws fuel body k = Done (f, k') /\
             in_grid W H f /\ ~ In f body))
  /\ ((forall c, in_grid W H c -> In c body) ->
      (forall draws fuel k r, new_food W H draws fuel body k <> Done r)
      /\ (0 < GRID_WIDTH W -> 0 < GRID_HEIGHT H ->
          forall draws fuel k, new_food W H draws fuel body k = OutOfFuel)).
Proof.
  split.
  - intros (c & Hg & Hfree).
    assert (Hw : 0 < GRID_WIDTH W) by (destruct Hg; lia).
    assert (Hh : 0 < GRID_HEIGHT H) by (destruct Hg; lia).
    assert (Hrun : forall draws k n fuel,
               ~ In (candidate W H draws k n) body -> (n < fuel)%nat ->
               exists f k',
                 new_food W H draws fuel body k = Done (f, k') /\
                 in_grid W H f /\ ~ In f body).
    { intros draws k n fuel Hn Hlt.
      apply (new_food_runs W H draws n); assumption. }
    split; [|exact Hrun].
    exists (draws_of c), 1%nat.
    apply (Hrun (draws_of c) 0%nat 0%nat); [|lia].
    rewrite draws_of_candidate; auto.
  - intros Hfull. split.
    + intros draws. apply new_food_never, Hfull.
    + intros Hw Hh draws. apply new_food_full; assumption.
Qed.

(** ** The theorems at work on the 640 by 480 frame *)

Ltac grid :=
  unfold in_grid; repeat split; vm_compute; first [reflexivity | discriminate].

Lemma start_game_init :
  init 640 480 zero_draws 1 0%nat = Done (start_game, 2%nat).
Proof. reflexivity. Qed.

Lemma start_game_reachable : reachable 640 480 zero_draws start_game.
Proof.
  exact (reach_init 640 480 zero_draws 1 0%nat _ _ start_game_init).
Qed.


(** A new game, then a tick onto the food at (17, 12): the first proposal
    for the next food is on the snake and is drawn again. *)
Lemma snake_cells_distinct_witness :
  NoDup [(17, 12); (16, 12)].
Proof.
  apply (snake_cells_distinct 640 480 sample_draws
           (mkGame [(17, 12); (16, 12)] (0, 0) (3, 4) 1 false None));
    [|reflexivity].
  apply (greach_update 640 480 sample_draws 2 (1, 0) 2%nat
           (mkGame [(16, 12)] (0, 0) (17, 12) 0 false None) _ 6%nat);
    [|reflexivity].
  apply (greach_init 640 480 sample_draws 1 0%nat _ 2%nat). reflexivity.
Defined.

(** The food of the new game of [sample_draws], then the food after the
    tick onto it. *)
Lemma new_food_free_cell_witness :
  (in_grid 640 480 (17, 12) /\ ~ In (17, 12) [(16, 12)])
  /\ (in_grid 640 480 (3, 4) /\ ~ In (3, 4) [(17, 12); (16, 12)]).
Proof.
  destruct (new_food_free_cell 640 480 sample_draws) as (Hnew & _ & Hupd).
  split.
  - apply (Hnew 1%nat [(16, 12)] 0%nat (17, 12) 2%nat). reflexivity.
  - apply (Hupd 2%nat (1, 0)
             (mkGame [(16, 12)] (0, 0) (17, 12) 0 false None) 2%nat
             (mkGame [(17, 12); (16, 12)] (0, 0) (3, 4) 1 false None) 6%nat);
      reflexivity.
Defined.

(** Restarting the finished game. *)
Lemma reset_state_witness :
  reset 640 480 zero_draws 1 finished 0%nat
  = Done (mkGame [(16, 12)] (0, 0) (0, 0) 0 false (Some (100, 120)), 2%nat)
  /\ prev_hand_pos
       (mkGame [(16, 12)] (0, 0) (0, 0) 0 false (Some (100, 120)))
     = prev_hand_pos finished.
Proof.
  split; [reflexivity|].
  apply (proj1 (reset_state 640 480 zero_draws 1 finished 0%nat) _ 2%nat
           eq_refl).
Defined.

(** C4, as the claim has it, fails: a game that has seen a hand and is
    reset does not have the [prev_hand_pos] of a new game. *)
Lemma reset_keeps_prev_hand_pos :
  exists s s' s0,
    reachable 640 480 zero_draws s
    /\ reset 640 480 zero_draws 1 s 2%nat = Done (s', 4%nat)
    /\ init 640 480 zero_draws 1 0%nat = Done (s0, 2%nat)
    /\ prev_hand_pos s0 = None
    /\ prev_hand_pos s' = Some (100, 120)
    /\ prev_hand_pos s' <> prev_hand_pos s0.
Proof.
  exists (on_hand (100, 120) start_game),
         (mkGame [(16, 12)] (0, 0) (0, 0) 0 false (Some (100, 120))),
         start_game.
  split.
  - apply (reach_step 640 480 zero_draws 1 (OpHand (100, 120)) 2%nat
             start_game _ 2%nat start_game_reachable).
    reflexivity.
  - repeat split; try reflexivity. discriminate.
Qed.

(** A new game, a first hand position, then the hand 50 pixels to the
    right: the direction is (1, 0). *)
Lemma direction_zero_or_cardinal_witness :
  (1, 0) = (0, 0) \/ cardinal (1, 0).
Proof.
  apply (direction_zero_or_cardinal 640 480 zero_draws
           (on_hand (150, 120) (on_hand (100, 120) start_game))).
  apply (reach_step 640 480 zero_draws 1 (OpHand (150, 120)) 2%nat
           (on_hand (100, 120) start_game) _ 2%nat); [|reflexivity].
  apply (reach_step 640 480 zero_draws 1 (OpHand (100, 120)) 2%nat
           start_game _ 2%nat); [|reflexivity].
  apply (reach_init 640 480 zero_draws 1 0%nat _ 2%nat). reflexivity.
Defined.

(** C5, as the claim has it, fails: the new game is reachable and its
    direction is none of the four unit vectors. *)
Lemma initial_direction_not_cardinal :
  reachable 640 480 zero_draws start_game
  /\ direction start_game = (0, 0)
  /\ ~ cardinal (direction start_game).
Proof.
  split; [exact start_game_reachable|]. split; [reflexivity|].
  unfold cardinal; simpl. intros [H | [H | [H | H]]]; discriminate.
Qed.

(** Moving right, hand 50 pixels to the left: the candidate (-1, 0) is
    the reverse of the direction and is dropped. *)
Lemma reverse_candidate_rejected_witness :
  steer (1, 0) (-1, 0) = (1, 0)
  /\ direction (on_hand (50, 120) finished) = (1, 0).
Proof.
  destruct reverse_candidate_rejected as [Hsteer Hhand]. split.
  - apply (Hsteer (1, 0) (-1, 0)). reflexivity.
  - apply (Hhand finished (50, 120) (100, 120) (-1, 0)); reflexivity.
Defined.

(** The finished game: a tick changes nothing, a hand moving 50 pixels
    down turns the direction. *)
Lemma finished_game_until_reset_witness :
  update 640 480 zero_draws 1 (1, 0) finished 0%nat = Done (finished, 0%nat)
  /\ direction (on_hand (100, 170) finished) = (0, 1).
Proof.
  destruct (finished_game_until_reset 640 480 zero_draws finished eq_refl)
    as (Hupd & _ & _ & _ & Hdir).
  split.
  - apply Hupd.
  - apply (Hdir (100, 170) (100, 120) (0, 1)).
    + reflexivity.
    + reflexivity.
    + discriminate.
Defined.

(** C7, as the claim has it, fails: in the finished game the gesture
    step, which is not [reset], changes the state. *)
Lemma finished_game_gesture_changes_state :
  game_over finished = true
  /\ is_reset (OpHand (100, 170)) = false
  /\ run_op 640 480 zero_draws 1 (OpHand (100, 170)) finished 0%nat
     = Done (on_hand (100, 170) finished, 0%nat)
  /\ direction finished = (1, 0)
  /\ direction (on_hand (100, 170) finished) = (0, 1)
  /\ prev_hand_pos finished = Some (100, 120)
  /\ prev_hand_pos (on_hand (100, 170) finished) = Some (100, 170)
  /\ on_hand (100, 170) finished <> finished.
Proof.
  repeat split. discriminate.
Qed.

(** The gesture step of [main] does not look at [game_over]: in the
    finished game a hand moving 50 pixels down still turns the direction. *)
Lemma gesture_in_finished_game :
  game_over finished = true
  /\ direction finished = (1, 0)
  /\ direction (on_hand (100, 170) finished) = (0, 1).
Proof. repeat split. Qed.

(** 30 pixels right and 5 up is a move to the right; 20 pixels is not
    enough. *)
Lemma classify_dominant_axis_witness :
  classify 30 (-5) = Some (1, 0) /\ classify 20 (-20) = None.
Proof.
  split.
  - rewrite (proj1 (classify_dominant_axis 30 (-5))). reflexivity.
  - rewrite (proj1 (classify_dominant_axis 20 (-20))). reflexivity.
Defined.

(** The coiled snake turning right onto its own last cell. *)
Lemma update_collision_pre_move_body_witness :
  update 640 480 zero_draws 1 (1, 0) coiled 0%nat
  = Done (set_game_over true coiled, 0%nat).
Proof.
  destruct (update_collision_pre_move_body 640 480 zero_draws 1 (1, 0)
              coiled 0%nat (5, 5) [(5, 6); (6, 6); (6, 5)] eq_refl eq_refl)
    as (_ & _ & Hlast & _).
  apply Hlast. reflexivity.
Defined.

(** With the centre cell taken and the corner free, [new_food] returns
    for some draws; with [sample_draws] entered at cursor 2 the first
    round fails on the snake and two rounds are enough. *)
Lemma new_food_terminates_witness :
  (exists draws fuel f k',
      new_food 640 480 draws fuel [(17, 12); (16, 12)] 0%nat = Done (f, k')
      /\ in_grid 640 480 f /\ ~ In f [(17, 12); (16, 12)])
  /\ (exists f k',
        new_food 640 480 sample_draws 2 [(17, 12); (16, 12)] 2%nat
        = Done (f, k')
        /\ in_grid 640 480 f /\ ~ In f [(17, 12); (16, 12)]).
Proof.
  assert (Hfree : exists c, in_grid 640 480 c /\ ~ In c [(17, 12); (16, 12)]).
  { exists (0, 0). split; [grid|].
    simpl. intros [H | [H | []]]; discriminate. }
  destruct (proj1 (new_food_terminates 640 480 [(17, 12); (16, 12)]) Hfree)
    as [Hsome Hrun].
  split; [exact Hsome|].
  apply (Hrun sample_draws 2%nat 1%nat 2%nat); [|lia].
  simpl. intros [H | [H | []]]; discriminate.
Defined.

(** ** Which frames can hold a game *)

(** X8. A game can be built, for some draws, exactly when the grid has
    at least two cells: the centre cell is the snake and the food needs
    another one.  All-zero draws then do, with the food in the corner. *)
Theorem init_returns_iff W H :
  ((exists draws fuel k s k', init W H draws fuel k = Done (s, k'))
   <-> 0 < GRID_WIDTH W /\ 0 < GRID_HEIGHT H
       /\ (1 < GRID_WIDTH W \/ 1 < GRID_HEIGHT H))
  /\ (0 < GRID_WIDTH W -> 0 < GRID_HEIGHT H ->
      1 < GRID_WIDTH W \/ 1 < GRID_HEIGHT H ->
      init W H zero_draws 1 0%nat
      = Done (mkGame [(GRID_WIDTH W / 2, GRID_HEIGHT H / 2)] (0, 0) (0, 0) 0
                     false None, 2%nat)).
Proof.
  assert (Hzero : 0 < GRID_WIDTH W -> 0 < GRID_HEIGHT H ->
                  1 < GRID_WIDTH W \/ 1 < GRID_HEIGHT H ->
                  init W H zero_draws 1 0%nat
                  = Done (mkGame [(GRID_WIDTH W / 2, GRID_HEIGHT H / 2)]
                                 (0, 0) (0, 0) 0 false None, 2%nat)).
  { intros Hw Hh Htwo. unfold init, reset, bind.
    rewrite new_food_round by assumption.
    assert (Ec : candidate W H zero_draws 0 0 = (0, 0)).
    { unfold candidate, zero_draws. rewrite !Z.mod_0_l by lia. reflexivity. }
    rewrite Ec.
    assert (Em : mem (0, 0) [(GRID_WIDTH W / 2, GRID_HEIGHT H / 2)] = false).
    { apply mem_false. intros [E | []]. injection E as E1 E2.
      pose proof (Z.div_le_lower_bound (GRID_WIDTH W) 2 1).
      pose proof (Z.div_le_lower_bound (GRID_HEIGHT H) 2 1). lia. }
    rewrite Em. reflexivity. }
  split; [|exact Hzero]. split.
  - intros (draws & fuel & k & s & k' & Hi).
    apply init_Done in Hi. destruct Hi as (f & Hn & _).
    destruct (new_food_sound _ _ _ _ _ _ _ _ Hn) as [[Hx Hy] Hfree].
    split; [lia|]. split; [lia|].
    destruct (Z.eq_dec (GRID_WIDTH W) 1) as [Ew|Ew]; [|lia].
    destruct (Z.eq_dec (GRID_HEIGHT H) 1) as [Eh|Eh]; [|lia].
    exfalso. apply Hfree. left. rewrite Ew, Eh.
    change (1 / 2) with 0. destruct f as [fx fy]; simpl in *. f_equal; lia.
  - intros (Hw & Hh & Htwo). exists zero_draws, 1%nat, 0%nat.
    eexists; eexists. apply Hzero; assumption.
Qed.

(** ** The further theorems at work *)

Lemma after_meal_reachable : reachable 640 480 sample_draws after_meal.
Proof.
  apply (reach_step 640 480 sample_draws 2 (OpUpdate (1, 0)) 2%nat
           (mkGame [(16, 12)] (0, 0) (17, 12) 0 false None) _ 6%nat);
    [|reflexivity].
  apply (reach_init 640 480 sample_draws 1 0%nat _ 2%nat). reflexivity.
Qed.

Lemma update_score_witness :
  (2 = 1 \/ 2 = 1 + 1) /\ 3 - 2 = 2 - 1.
Proof.
  destruct (update_score 640 480 zero_draws 1 (1, 0) facing_food 0%nat
              (mkGame [(17, 12); (16, 12); (15, 12)] (1, 0) (0, 0) 2 false
                      None) 2%nat eq_refl) as (H1 & _ & H3).
  split; [exact H1 | exact H3].
Defined.

Lemma reachable_length_score_witness :
  Z.of_nat (length (snake after_meal)) = score after_meal + 1
  /\ snake after_meal <> []
  /\ 0 <= score after_meal.
Proof.
  apply (reachable_length_score 640 480 sample_draws after_meal).
  exact after_meal_reachable.
Defined.

Lemma reachable_in_grid_witness :
  (forall c, In c (snake after_meal) -> in_grid 640 480 c)
  /\ in_grid 640 480 (food after_meal).
Proof.
  apply (reachable_in_grid 640 480 sample_draws after_meal).
  exact after_meal_reachable.
Defined.

Lemma reachable_food_free_witness :
  ~ In (food after_meal) (snake after_meal).
Proof.
  apply (reachable_food_free 640 480 sample_draws after_meal).
  exact after_meal_reachable.
Defined.

(** Stepping right from the last column. *)
Lemma update_out_of_grid_witness :
  exists s',
    update 640 480 zero_draws 1 (1, 0) at_edge 0%nat = Done (s', 0%nat)
    /\ game_over s' = true
    /\ snake s' = snake at_edge
    /\ food s' = food at_edge
    /\ score s' = score at_edge
    /\ direction s' = direction at_edge
    /\ prev_hand_pos s' = prev_hand_pos at_edge.
Proof.
  apply (update_out_of_grid 640 480 zero_draws 1 (1, 0) at_edge 0%nat
           (31, 4) [(30, 4)] eq_refl eq_refl).
  unfold in_grid. vm_compute. intros [[_ H] _]. discriminate.
Defined.

Lemma update_never_raises_witness :
  update 640 480 sample_draws 0 (1, 0) after_meal 6%nat <> Raised ValueError
  /\ update 640 480 sample_draws 1 (1, 0) (blank) 0%nat = Raised IndexError.
Proof.
  destruct (update_never_raises 640 480 sample_draws after_meal) as [H1 _].
  destruct (update_never_raises 640 480 sample_draws blank) as [_ H2].
  split.
  - apply H1. exact after_meal_reachable.
  - apply H2; reflexivity.
Defined.

(** On the grid of two cells the tick onto the food leaves no cell for
    the next food. *)
Lemma update_full_board_hangs_witness :
  update 40 20 zero_draws 1000 (-1, 0) two_cells 2%nat = OutOfFuel.
Proof.
  apply (update_full_board_hangs 40 20 zero_draws 1000 (-1, 0) two_cells
           2%nat (1, 0) [] eq_refl eq_refl eq_refl eq_refl).
  intros [x y]. unfold in_grid. change (GRID_WIDTH 40) with 2.
  change (GRID_HEIGHT 20) with 1. cbn [fst snd]. intros [Hx Hy].
  assert (Ey : y = 0) by lia. assert (Ex : x = 0 \/ x = 1) by lia.
  subst y. destruct Ex as [-> | ->]; simpl; auto.
Defined.

Lemma new_food_first_free_witness :
  exists n,
    (n < 2)%nat
    /\ (3, 4) = candidate 640 480 sample_draws 2 n
    /\ 6%nat = (2 + 2 * S n)%nat
    /\ ~ In (3, 4) [(17, 12); (16, 12)]
    /\ forall i, (i < n)%nat ->
         In (candidate 640 480 sample_draws 2 i) [(17, 12); (16, 12)].
Proof.
  apply (new_food_first_free 640 480 sample_draws 2 [(17, 12); (16, 12)]
           2%nat (3, 4) 6%nat).
  reflexivity.
Defined.

Lemma game_over_absorbing_witness :
  exists s',
    run_ops 640 480 zero_draws 1
      [OpUpdate (0, 1); OpHand (100, 170); OpUpdate (0, 1)] finished 0%nat
    = Done (s', 0%nat)
    /\ snake s' = snake finished /\ food s' = food finished
    /\ score s' = score finished /\ game_over s' = true.
Proof.
  apply (game_over_absorbing 640 480 zero_draws 1
           [OpUpdate (0, 1); OpHand (100, 170); OpUpdate (0, 1)] finished
           0%nat); reflexivity.
Defined.

Lemma cardinal_direction_stays_witness :
  cardinal (direction
              (mkGame [(16, 13); (16, 12)] (0, 1) (17, 12) 1 false
                      (Some (100, 150)))).
Proof.
  apply (cardinal_direction_stays 640 480 zero_draws 1
           [OpHand (100, 100); OpHand (100, 150); OpUpdate (0, 1)]
           facing_food 0%nat _ 0%nat).
  - left; reflexivity.
  - reflexivity.
  - reflexivity.
Defined.

Lemma gesture_never_reverses_witness :
  direction (on_hand (50, 120) moving_right) <> neg (direction moving_right).
Proof.
  apply (gesture_never_reverses (50, 120) moving_right). discriminate.
Defined.

Lemma two_gestures_reverse_witness :
  exists hp1 hp2,
    let s2 := run_hands [hp1; hp2] moving_right in
    direction s2 = neg (direction moving_right)
    /\ exists s3,
        update 640 480 zero_draws 1 (direction s2) s2 0%nat
        = Done (s3, 0%nat)
        /\ game_over s3 = true
        /\ snake s3 = snake moving_right
        /\ food s3 = food moving_right
        /\ score s3 = score moving_right.
Proof.
  apply (two_gestures_reverse 640 480 zero_draws 1 moving_right 0%nat
           (16, 12) (15, 12) [] (100, 120)); try reflexivity.
  left; reflexivity.
Defined.

(** A hand drifting 60 pixels to the left in three frames. *)
Lemma slow_hand_keeps_direction_witness :
  direction (run_hands [(80, 120); (60, 120); (40, 120)] moving_right)
  = (1, 0)
  /\ prev_hand_pos (run_hands [(80, 120); (60, 120); (40, 120)] moving_right)
     = Some (40, 120).
Proof.
  apply (slow_hand_keeps_direction [(80, 120); (60, 120); (40, 120)]
           moving_right (100, 120) eq_refl).
  unfold small_steps, THRESHOLD; cbn [fst snd]. lia.
Defined.

(** A frame with a wide open hand: the speed is clamped to 20. *)
Lemma loop_speed_range_witness :
  MIN_SPEED <= 20 <= MAX_SPEED /\ 20 <> 0.
Proof.
  apply (loop_speed_range 640 480 zero_draws
           (mkLoop (on_hand (100, 120) start_game) 20)).
  apply (loop_next 640 480 zero_draws 1
           (mkFrame true (Some ((100, 120), clamp_speed 50)) false KeyOther)
           2%nat (mkLoop start_game MIN_SPEED) _ 2%nat).
  - apply (loop_start 640 480 zero_draws 1 0%nat start_game 2%nat).
    reflexivity.
  - exists 50. reflexivity.
  - reflexivity.
Defined.

(** Two frames of the loop: a hand, then the hand 50 pixels to the right
    and a tick onto the food. *)
Lemma loop_snake_contiguous_witness :
  contiguous [(17, 12); (16, 12)].
Proof.
  apply (loop_snake_contiguous 640 480 sample_draws
           (mkLoop (mkGame [(17, 12); (16, 12)] (1, 0) (3, 4) 1 false
                           (Some (150, 120))) 5)).
  apply (loop_next 640 480 sample_draws 2
           (mkFrame true (Some ((150, 120), clamp_speed 1)) true KeyOther)
           2%nat
           (mkLoop (mkGame [(16, 12)] (0, 0) (17, 12) 0 false
                           (Some (100, 120))) 5) _ 6%nat).
  - apply (loop_next 640 480 sample_draws 2
             (mkFrame true (Some ((100, 120), clamp_speed 1)) false KeyOther)
             2%nat
             (mkLoop (mkGame [(16, 12)] (0, 0) (17, 12) 0 false None)
                     MIN_SPEED) _ 2%nat).
    + apply (loop_start 640 480 sample_draws 1 0%nat _ 2%nat). reflexivity.
    + exists 1. reflexivity.
    + reflexivity.
  - exists 1. reflexivity.
  - reflexivity.
Defined.


Lemma draw_game_over_text_witness :
  In (PutText "Game Over! (R to restart)"%string (160, 240)
              FONT_HERSHEY_SIMPLEX 1 TEXT_COLOR 2)
     (draw 640 480 finished 5)
  /\ length (draw 640 480 finished 5) = 7%nat.
Proof.
  destruct (draw_game_over_text 640 480 finished 5) as [_ Hlen].
  split; [|exact Hlen]. vm_compute. do 6 right. left. reflexivity.
Defined.

(** A frame without a hand on which the tick is due. *)
Lemma no_hand_frame_persists_witness :
  current_speed
    (mkLoop (mkGame [(17, 12); (16, 12)] (1, 0) (3, 4) 1 false
                    (Some (100, 120))) 7) = 7
  /\ direction (mkGame [(17, 12); (16, 12)] (1, 0) (3, 4) 1 false
                       (Some (100, 120))) = direction moving_right
  /\ prev_hand_pos (mkGame [(17, 12); (16, 12)] (1, 0) (3, 4) 1 false
                           (Some (100, 120))) = prev_hand_pos moving_right.
Proof.
  apply (no_hand_frame_persists 640 480 zero_draws 1
           (mkFrame true None true KeyOther) (mkLoop moving_right 7) 0%nat
           (mkLoop (mkGame [(17, 12); (16, 12)] (1, 0) (3, 4) 1 false
                           (Some (100, 120))) 7) 0%nat).
  - reflexivity.
  - discriminate.
  - reflexivity.
Defined.

(** A frame of 19 by 480 pixels has no column. *)
Lemma reset_raises_iff_no_grid_witness :
  init 19 480 zero_draws 1 0%nat = Raised ValueError.
Proof.
  apply (proj1 (proj2 (reset_raises_iff_no_grid 19 480 zero_draws 0 blank
                         0%nat))).
  left. vm_compute. discriminate.
Defined.

Lemma init_returns_iff_witness :
  init 40 20 zero_draws 1 0%nat = Done (two_cells_start, 2%nat).
Proof.
  apply (proj2 (init_returns_iff 40 20)).
  - reflexivity.
  - reflexivity.
  - left; reflexivity.
Defined.
